(** * Blood-bag chaincode (src/blood.js): a shallow embedding and its properties

    The chaincode keeps blood-bag records in the ledger's world state: a
    key-value store from string keys to byte buffers.  Records are JSON
    objects, serialised with [JSON.stringify] and read back with
    [JSON.parse]; next to each record the chaincode keeps a marker entry
    under a composite key [type~id].

    The file has four parts:
    - [JSON]: the JSON values, printer and parser the chaincode relies on;
    - [Ledger] and [Chaincode]: the stub's store and the methods of the
      [Chaincode] class, translated one by one;
    - the vocabulary of the properties: records, runs and invariants;
    - the properties, C1 to C10, each after the lemmas it rests on, and
      then more of the chaincode: the edge cases of the methods, what every
      ledger holds, the queries and the dispatch. *)

From Stdlib Require Import Ascii String NArith Lia.
From stdpp Require Import base option list strings gmap.

Set Warnings "-register-all".


(** ** Characters *)

Definition dquote : ascii := "034"%char.
Definition backslash : ascii := "092"%char.
(** U+0000, fabric's [MIN_UNICODE_RUNE_VALUE] and composite-key namespace. *)
Definition NUL : ascii := "000"%char.

Module JSON.

(** A JSON value. An object is the list of its own properties in insertion
    order. Two things are kept as the text has them rather than as JavaScript
    normalises them: the digits of a number, and the place of a property
    whose name is an array index (JavaScript lists those first). The
    chaincode produces neither: its records hold strings under ten fixed
    names. *)
Inductive json : Type :=
| JNull
| JBool (b : bool)
| JNumber (lexeme : string)
| JString (s : string)
| JArray (elems : list json)
| JObject (members : list (string * json)).

(** [o.k]: [None] stands for [undefined]. *)
Fixpoint obj_get (k : string) (o : list (string * json)) : option json :=
  match o with
  | [] => None
  | (k', v) :: o' => if String.eqb k k' then Some v else obj_get k o'
  end.

(** [o.k = v]: an existing property keeps its place, a new one goes last. *)
Fixpoint obj_set (k : string) (v : json) (o : list (string * json))
  : list (string * json) :=
  match o with
  | [] => [(k, v)]
  | (k', v') :: o' =>
      if String.eqb k k' then (k, v) :: o' else (k', v') :: obj_set k v o'
  end.

(** *** JSON.stringify *)

Definition hex_digit (n : N) : ascii :=
  if (n <? 10)%N then ascii_of_N (48 + n) else ascii_of_N (87 + n).

(** The text of one character inside a JSON string literal: the quote, the
    backslash and the control characters below U+0020 are escaped, every
    other byte is copied. That holds for the bytes of a surrogate without
    its partner too, where [JSON.stringify] writes the escape it came from:
    the two texts differ and parse to the same string. *)
Definition escape_char (c : ascii) : string :=
  if Ascii.eqb c dquote then String backslash (String dquote "")
  else if Ascii.eqb c backslash then String backslash (String backslash "")
  else if Ascii.eqb c "008"%char then String backslash "b"
  else if Ascii.eqb c "009"%char then String backslash "t"
  else if Ascii.eqb c "010"%char then String backslash "n"
  else if Ascii.eqb c "012"%char then String backslash "f"
  else if Ascii.eqb c "013"%char then String backslash "r"
  else if (N_of_ascii c <? 32)%N then
    String backslash
      (String "u" (String "0" (String "0"
         (String (hex_digit (N_of_ascii c / 16))
            (String (hex_digit (N_of_ascii c mod 16)) "")))))
  else String c "".

Fixpoint escape (s : string) : string :=
  match s with
  | EmptyString => ""
  | String c r => escape_char c +:+ escape r
  end.

Definition quote (s : string) : string :=
  String dquote (escape s +:+ String dquote "").

(** The texts of the items, with commas between them. *)
Definition join_with {A} (f : A → string) : list A → string :=
  fix join (l : list A) : string :=
    match l with
    | [] => ""
    | [x] => f x
    | x :: l' => f x +:+ "," +:+ join l'
    end.

Fixpoint JSON_stringify (v : json) : string :=
  match v with
  | JNull => "null"
  | JBool true => "true"
  | JBool false => "false"
  | JNumber n => n
  | JString s => quote s
  | JArray l => "[" +:+ join_with JSON_stringify l +:+ "]"
  | JObject o =>
      "{" +:+
      join_with (λ '(k, x), quote k +:+ ":" +:+ JSON_stringify x) o +:+ "}"
  end.

(** *** JSON.parse *)

Definition is_ws (c : ascii) : bool :=
  Ascii.eqb c " " || Ascii.eqb c "009"%char
  || Ascii.eqb c "010"%char || Ascii.eqb c "013"%char.

Fixpoint skip_ws (s : string) : string :=
  match s with
  | String c r => if is_ws c then skip_ws r else s
  | EmptyString => s
  end.

Definition hex_value (c : ascii) : option N :=
  let n := N_of_ascii c in
  if (48 <=? n)%N && (n <=? 57)%N then Some (n - 48)%N
  else if (97 <=? n)%N && (n <=? 102)%N then Some (n - 87)%N
  else if (65 <=? n)%N && (n <=? 70)%N then Some (n - 55)%N
  else None.

(** The UTF-16 code unit written by the four hex digits of an escape. *)
Definition hex4 (a b c d : ascii) : option N :=
  match hex_value a, hex_value b, hex_value c, hex_value d with
  | Some x, Some y, Some z, Some w => Some (((x * 16 + y) * 16 + z) * 16 + w)%N
  | _, _, _, _ => None
  end.

(** The UTF-8 bytes of a code point, as [Buffer.from] writes them. A
    JavaScript string may also hold a surrogate without its partner, which
    is no code point; it is kept here as the three bytes this function gives
    for its code unit. No text decoded from a buffer has these bytes, so
    such a string differs from every text read from a buffer and from every
    argument, as it does in JavaScript. *)
Definition utf8 (cp : N) : string :=
  if (cp <? 128)%N then String (ascii_of_N cp) ""
  else if (cp <? 2048)%N then
    String (ascii_of_N (192 + cp / 64))
      (String (ascii_of_N (128 + cp mod 64)) "")
  else if (cp <? 65536)%N then
    String (ascii_of_N (224 + cp / 4096))
      (String (ascii_of_N (128 + (cp / 64) mod 64))
         (String (ascii_of_N (128 + cp mod 64)) ""))
  else
    String (ascii_of_N (240 + cp / 262144))
      (String (ascii_of_N (128 + (cp / 4096) mod 64))
         (String (ascii_of_N (128 + (cp / 64) mod 64))
            (String (ascii_of_N (128 + cp mod 64)) ""))).

Definition is_high_surrogate (u : N) : bool := (55296 <=? u)%N && (u <=? 56319)%N.
Definition is_low_surrogate (u : N) : bool := (56320 <=? u)%N && (u <=? 57343)%N.

Definition unescape (e : ascii) : option ascii :=
  if Ascii.eqb e dquote then Some dquote
  else if Ascii.eqb e backslash then Some backslash
  else if Ascii.eqb e "/" then Some "/"%char
  else if Ascii.eqb e "b" then Some "008"%char
  else if Ascii.eqb e "t" then Some "009"%char
  else if Ascii.eqb e "n" then Some "010"%char
  else if Ascii.eqb e "f" then Some "012"%char
  else if Ascii.eqb e "r" then Some "013"%char
  else None.

Definition prepend (p : string) (x : option (string * string))
  : option (string * string) :=
  match x with
  | Some (s, r) => Some (p +:+ s, r)
  | None => None
  end.

(** The characters of a string literal after its opening quote, and the
    text after its closing quote. An escaped high surrogate followed by an
    escaped low surrogate is one character; any other escaped surrogate
    stays in the string alone. *)
Fixpoint parse_string_body (s : string) : option (string * string) :=
  match s with
  | EmptyString => None
  | String c r =>
      if Ascii.eqb c dquote then Some ("", r)
      else if Ascii.eqb c backslash then
        match r with
        | String e r1 =>
            if Ascii.eqb e "u" then
              match r1 with
              | String h1 (String h2 (String h3 (String h4 r2))) =>
                  match hex4 h1 h2 h3 h4 with
                  | Some u =>
                      if is_high_surrogate u then
                        match r2 with
                        | String b (String x (String l1 (String l2
                            (String l3 (String l4 r3))))) =>
                            match
                              (if Ascii.eqb b backslash && Ascii.eqb x "u"
                               then hex4 l1 l2 l3 l4 else None)
                            with
                            | Some lo =>
                                if is_low_surrogate lo then
                                  prepend
                                    (utf8 (65536 + (u - 55296) * 1024
                                           + (lo - 56320)))
                                    (parse_string_body r3)
                                else
                                  prepend (utf8 u)
                                    (parse_string_body r2)
                            | None =>
                                prepend (utf8 u)
                                  (parse_string_body r2)
                            end
                        | _ =>
                            prepend (utf8 u) (parse_string_body r2)
                        end
                      else if is_low_surrogate u then
                        prepend (utf8 u) (parse_string_body r2)
                      else prepend (utf8 u) (parse_string_body r2)
                  | None => None
                  end
              | _ => None
              end
            else
              match unescape e with
              | Some x => prepend (String x "") (parse_string_body r1)
              | None => None
              end
        | EmptyString => None
        end
      else if (N_of_ascii c <? 32)%N then None
      else prepend (String c "") (parse_string_body r)
  end.

Definition is_digit (c : ascii) : bool :=
  (48 <=? N_of_ascii c)%N && (N_of_ascii c <=? 57)%N.

Fixpoint span_digits (s : string) : string * string :=
  match s with
  | String c r =>
      if is_digit c then
        let '(d, r') := span_digits r in (String c d, r')
      else ("", s)
  | EmptyString => ("", "")
  end.

(** A number: an optional minus sign; then a lone zero or a digit from one
    to nine followed by digits; then optionally a dot and at least one
    digit; then optionally an exponent mark, a sign and at least one digit. *)
Definition parse_number (s : string) : option (string * string) :=
  let '(sign, s1) :=
    match s with
    | String c r => if Ascii.eqb c "-" then ("-", r) else ("", s)
    | EmptyString => ("", s)
    end in
  let int_part :=
    match s1 with
    | String c r =>
        if Ascii.eqb c "0" then Some ("0", r)
        else if is_digit c then Some (span_digits s1)
        else None
    | EmptyString => None
    end in
  match int_part with
  | None => None
  | Some (i, s2) =>
      let frac_part :=
        match s2 with
        | String c r =>
            if Ascii.eqb c "." then
              let '(d, r') := span_digits r in
              if String.eqb d "" then None else Some ("." +:+ d, r')
            else Some ("", s2)
        | EmptyString => Some ("", s2)
        end in
      match frac_part with
      | None => None
      | Some (f, s3) =>
          let exp_part :=
            match s3 with
            | String c r =>
                if Ascii.eqb c "e" || Ascii.eqb c "E" then
                  let '(sg, r1) :=
                    match r with
                    | String c' r' =>
                        if Ascii.eqb c' "+" || Ascii.eqb c' "-"
                        then (String c' "", r') else ("", r)
                    | EmptyString => ("", r)
                    end in
                  let '(d, r2) := span_digits r1 in
                  if String.eqb d "" then None
                  else Some (String c sg +:+ d, r2)
                else Some ("", s3)
            | EmptyString => Some ("", s3)
            end in
          match exp_part with
          | None => None
          | Some (e, s4) => Some (sign +:+ i +:+ f +:+ e, s4)
          end
      end
  end.

(** [strip_prefix p s]: the rest of [s] after the literal [p]. *)
Fixpoint strip_prefix (p s : string) : option string :=
  match p, s with
  | EmptyString, _ => Some s
  | String a p', String b s' => if Ascii.eqb a b then strip_prefix p' s' else None
  | String _ _, EmptyString => None
  end.

Definition parse_literal (p : string) (v : json) (s : string)
  : option (json * string) :=
  match strip_prefix p s with
  | Some r => Some (v, r)
  | None => None
  end.

(** The recursive-descent parser. [fuel] bounds the chain of calls; between
    two calls at least one character is read on every second step, so twice
    the length of the text, which is what [JSON_parse] supplies, is enough. *)
Fixpoint parse_value (fuel : nat) (s : string) : option (json * string) :=
  match fuel with
  | O => None
  | S f =>
      match skip_ws s with
      | EmptyString => None
      | String c r =>
          if Ascii.eqb c "{" then
            match skip_ws r with
            | String c' r' =>
                if Ascii.eqb c' "}" then Some (JObject [], r')
                else parse_members f [] r
            | EmptyString => None
            end
          else if Ascii.eqb c "[" then
            match skip_ws r with
            | String c' r' =>
                if Ascii.eqb c' "]" then Some (JArray [], r')
                else parse_elements f [] r
            | EmptyString => None
            end
          else if Ascii.eqb c dquote then
            match parse_string_body r with
            | Some (x, r') => Some (JString x, r')
            | None => None
            end
          else if Ascii.eqb c "t" then parse_literal "true" (JBool true) (String c r)
          else if Ascii.eqb c "f" then parse_literal "false" (JBool false) (String c r)
          else if Ascii.eqb c "n" then parse_literal "null" JNull (String c r)
          else
            match parse_number (String c r) with
            | Some (n, r') => Some (JNumber n, r')
            | None => None
            end
      end
  end
with parse_elements (fuel : nat) (acc : list json) (s : string)
  : option (json * string) :=
  match fuel with
  | O => None
  | S f =>
      match parse_value f s with
      | None => None
      | Some (v, r) =>
          match skip_ws r with
          | String c r' =>
              if Ascii.eqb c "," then parse_elements f (acc ++ [v]) r'
              else if Ascii.eqb c "]" then Some (JArray (acc ++ [v]), r')
              else None
          | EmptyString => None
          end
      end
  end
with parse_members (fuel : nat) (acc : list (string * json)) (s : string)
  : option (json * string) :=
  match fuel with
  | O => None
  | S f =>
      match skip_ws s with
      | EmptyString => None
      | String c r =>
          if Ascii.eqb c dquote then
            match parse_string_body r with
            | None => None
            | Some (k, r1) =>
                match skip_ws r1 with
                | EmptyString => None
                | String c1 r2 =>
                    if Ascii.eqb c1 ":" then
                      match parse_value f r2 with
                      | None => None
                      | Some (v, r3) =>
                          match skip_ws r3 with
                          | EmptyString => None
                          | String c3 r4 =>
                              if Ascii.eqb c3 "," then
                                parse_members f (obj_set k v acc) r4
                              else if Ascii.eqb c3 "}" then
                                Some (JObject (obj_set k v acc), r4)
                              else None
                          end
                      end
                    else None
                end
            end
          else None
      end
  end.

(** [JSON.parse]: [None] stands for the [SyntaxError] it throws. *)
Definition JSON_parse (s : string) : option json :=
  match parse_value (S (2 * String.length s)) s with
  | Some (v, r) => if String.eqb (skip_ws r) "" then Some v else None
  | None => None
  end.

End JSON.
Import JSON.


(** ** The ledger stub

    [fabric-shim]'s stub is the chaincode's only access to the ledger. The
    world state is a finite map from keys to buffers; a buffer is modelled by
    its text (the chaincode only ever writes UTF-8 text and reads buffers
    through [toString]). [getState] answers an empty buffer for an absent key,
    so a key is taken to exist when its value is non-empty. *)

Module Ledger.

Abbreviation store := (gmap string string).

(** What a method throws. The first five follow the error kinds of the
    chaincode's messages; [StubError] is an exception raised inside the stub,
    [TypeError] one raised by the JavaScript runtime, and [OutsideModel] marks
    a run that leaves the fragment of JavaScript embedded here (a loose
    comparison of a string with a value that is neither a string nor
    nullish). *)
Inductive error : Type :=
| InvalidArgument (msg : string)
| AlreadyExists (id : string)
| NotFound (id : string)
| DecodeError (id : string)
| IndexError
| StubError (msg : string)
| TypeError
| OutsideModel.

Inductive outcome (A : Type) : Type :=
| Return (a : A)
| Throw (e : error).
Arguments Return {A} a.
Arguments Throw {A} e.

(** A method body: it runs against the world state and either returns or
    throws; the writes made before a throw stay in the state it hands back. *)
Definition M (A : Type) : Type := store → outcome A * store.

Definition ret {A} (a : A) : M A := λ s, (Return a, s).
Definition throw {A} (e : error) : M A := λ s, (Throw e, s).
Definition bind {A B} (m : M A) (k : A → M B) : M B :=
  λ s, match m s with
       | (Return a, s') => k a s'
       | (Throw e, s') => (Throw e, s')
       end.

#[global] Instance M_ret : MRet M := @ret.
#[global] Instance M_bind : MBind M := λ A B k m, bind m k.

Definition getState (key : string) : M string :=
  λ s, (Return (default "" (s !! key)), s).
Definition putState (key value : string) : M unit :=
  λ s, (Return (), <[key := value]> s).
Definition deleteState (key : string) : M unit :=
  λ s, (Return (), delete key s).

(** A composite-key attribute must be a non-empty string. *)
Definition validateCompositeKeyAttribute (attr : option json) : option string :=
  match attr with
  | Some (JString a) => if String.eqb a "" then None else Some a
  | _ => None
  end.

Fixpoint compositeKeyAttributes (attributes : list (option json))
  : option string :=
  match attributes with
  | [] => Some ""
  | attr :: rest =>
      match validateCompositeKeyAttribute attr, compositeKeyAttributes rest with
      | Some a, Some r => Some (a +:+ String NUL r)
      | _, _ => None
      end
  end.

(** [stub.createCompositeKey]: the namespace byte, the object type and the
    attributes, each followed by U+0000. The stub refuses an attribute that
    is not a non-empty string and looks no further: an attribute that holds
    U+0000 itself goes through. *)
Definition createCompositeKey (objectType : string)
    (attributes : list (option json)) : M string :=
  match validateCompositeKeyAttribute (Some (JString objectType)),
        compositeKeyAttributes attributes with
  | Some t, Some r => ret (String NUL (t +:+ String NUL r))
  | _, _ => throw (StubError "object type or attribute not a non-zero length string")
  end.

End Ledger.
Import Ledger.

(** ** JavaScript values *)

(** A string is truthy unless it is empty. *)
Definition truthy (s : string) : bool := negb (String.eqb s "").

(** A [Buffer] is an object, and every object is truthy, the empty buffer
    included. *)
Definition buffer_truthy (b : string) : bool := true.

(** The [value] a cursor of fabric-shim 1.x delivers, the one whose results
    have [tx_id] and [is_delete], is a [ByteBuffer]. It is modelled by its
    text, which is what [toString('utf8')] reads from it. Called without an encoding,
    [toString()] does not read the text: it describes the buffer, as
    [ByteBufferNB(offset=..,markedOffset=..,limit=..,capacity=..)]. The
    description is never empty, so it is truthy whatever the buffer holds,
    an empty value included. *)
Definition description_truthy (value : string) : bool := true.

(** [v.k] *)
Definition get_property (v : json) (k : string) : M (option json) :=
  match v with
  | JNull => throw TypeError
  | JObject o => ret (obj_get k o)
  | _ => ret None
  end.

(** [v.k = x] in strict mode. A property put on an array is not an element,
    and [JSON.stringify] does not print it. *)
Definition set_property (v : json) (k : string) (x : json) : M json :=
  match v with
  | JObject o => ret (JObject (obj_set k x o))
  | JArray l => ret (JArray l)
  | _ => throw TypeError
  end.

(** [v == s] for a string [s]. *)
Definition loose_eq (v : option json) (s : string) : M bool :=
  match v with
  | None | Some JNull => ret false
  | Some (JString x) => ret (String.eqb x s)
  | Some _ => throw OutsideModel
  end.

(** ** The chaincode: the methods of [Chaincode] in src/blood.js *)

Module Chaincode.

Definition indexName : string := "type~id".

(** The marker stored under an index key: the one character U+0000. *)
Definition indexValue : string := String NUL "".

(** [createBloodBag(stub, args, thisClass)] *)
Definition createBloodBag (args : list string) : M unit :=
  match args with
  | [a0; a1; a2; a3; a4; a5] =>
      if String.length a0 <=? 0 then
        throw (InvalidArgument "1st argument must be a non-empty string literal")
      else if String.length a1 <=? 0 then
        throw (InvalidArgument "2nd argument must be a non-empty string literal")
      else if String.length a2 <=? 0 then
        throw (InvalidArgument "3rd argument must be a non-empty string literal")
      else if String.length a3 <=? 0 then
        throw (InvalidArgument "4th argument must be a non-empty string literal")
      else if String.length a4 <=? 0 then
        throw (InvalidArgument "5th argument must be a non-empty string literal")
      else if String.length a5 <=? 0 then
        throw (InvalidArgument "6th argument must be a non-empty string literal")
      else
        let bloodBagID := a0 in
        let bloodBagOriginID := a1 in
        let bloodBagLocation := a2 in
        let bloodBagStatus := "UNASIGNED" in
        let bloodBagReceiver := "UNASIGNED" in
        let bloodBagDestination := "UNASIGNED" in
        let bloodType := a3 in
        let bloodRH := a4 in
        let bloodBagSize := a5 in
        bloodBagState ← getState bloodBagID;
        if truthy bloodBagState then throw (AlreadyExists bloodBagID)
        else
          let bloodBag := [] in
          let bloodBag := obj_set "docType" (JString "bloodbag") bloodBag in
          let bloodBag := obj_set "id" (JString bloodBagID) bloodBag in
          let bloodBag := obj_set "originId" (JString bloodBagOriginID) bloodBag in
          let bloodBag := obj_set "location" (JString bloodBagLocation) bloodBag in
          let bloodBag := obj_set "status" (JString bloodBagStatus) bloodBag in
          let bloodBag := obj_set "recipient" (JString bloodBagReceiver) bloodBag in
          let bloodBag := obj_set "destination" (JString bloodBagDestination) bloodBag in
          let bloodBag := obj_set "type" (JString bloodType) bloodBag in
          let bloodBag := obj_set "rh" (JString bloodRH) bloodBag in
          let bloodBag := obj_set "size" (JString bloodBagSize) bloodBag in
          putState bloodBagID (JSON_stringify (JObject bloodBag));;
          typeIdIndexKey ←
            createCompositeKey indexName
              [obj_get "type" bloodBag; obj_get "id" bloodBag];
          putState typeIdIndexKey indexValue
  | _ => throw (InvalidArgument "Incorrect number of arguments. Expecting 6")
  end.

(** [readBloodBag(stub, args, thisClass)]: the stored buffer itself. *)
Definition readBloodBag (args : list string) : M string :=
  match args with
  | [ID] =>
      if negb (truthy ID) then
        throw (InvalidArgument "Blood Bag ID must not be empty")
      else
        bloodBagAsBytes ← getState ID;
        if negb (truthy bloodBagAsBytes) then throw (NotFound ID)
        else ret bloodBagAsBytes
  | _ =>
      throw (InvalidArgument
               "Incorrect number of arguments. Expecting ID of Blood Bag to query")
  end.

(** [deleteBloodBag(stub, args, thisClass)] *)
Definition deleteBloodBag (args : list string) : M unit :=
  match args with
  | [ID] =>
      if negb (truthy ID) then
        throw (InvalidArgument "Blood Bag ID must not be empty")
      else
        bagAsBytes ← getState ID;
        if negb (buffer_truthy bagAsBytes) then throw (NotFound ID)
        else
          match JSON_parse bagAsBytes with
          | None => throw (DecodeError ID)
          | Some bagJSON =>
              deleteState ID;;
              type ← get_property bagJSON "type";
              id ← get_property bagJSON "id";
              typeIdIndexKey ← createCompositeKey indexName [type; id];
              if negb (truthy typeIdIndexKey) then throw IndexError
              else deleteState typeIdIndexKey
          end
  | _ =>
      throw (InvalidArgument
               "Incorrect number of arguments. Expecting ID of the Blood Bag to delete")
  end.

(** [moveBagToLocation(stub, args, thisClass)] *)
Definition moveBagToLocation (args : list string) : M unit :=
  match args with
  | ID :: location :: _ =>
      bagAsBytes ← getState ID;
      if negb (buffer_truthy bagAsBytes) || negb (truthy bagAsBytes) then
        throw (NotFound ID)
      else
        match JSON_parse bagAsBytes with
        | None => throw (DecodeError ID)
        | Some bagToMove =>
            destination ← get_property bagToMove "destination";
            arrived ← loose_eq destination location;
            bagToMove ←
              (if arrived : bool then
                 bagToMove ← set_property bagToMove "location" (JString location);
                 set_property bagToMove "status" (JString "RECEIVED")
               else
                 bagToMove ← set_property bagToMove "location" (JString location);
                 set_property bagToMove "status" (JString "INTRANSIT"));
            putState ID (JSON_stringify bagToMove)
        end
  | _ =>
      throw (InvalidArgument
               "Incorrect number of arguments. Expecting Blood Bag's ID and new Location")
  end.

(** [assignBloodBagReceiver(stub, args, thisClass)] *)
Definition assignBloodBagReceiver (args : list string) : M unit :=
  match args with
  | ID :: recipient :: destination :: _ =>
      bagAsBytes ← getState ID;
      if negb (buffer_truthy bagAsBytes) || negb (truthy bagAsBytes) then
        throw (NotFound ID)
      else
        match JSON_parse bagAsBytes with
        | None => throw (DecodeError ID)
        | Some bagToMove =>
            bagToMove ← set_property bagToMove "recipient" (JString recipient);
            bagToMove ← set_property bagToMove "destination" (JString destination);
            bagToMove ← set_property bagToMove "status" (JString "ASSIGNED");
            putState ID (JSON_stringify bagToMove)
        end
  | _ =>
      throw (InvalidArgument
               "Incorrect number of arguments. Expecting Blood Bag's ID, recipientID and Destination")
  end.

(** *** History *)

(** What a cursor yields: a key with its value for a state query, a past
    write or deletion of the key for a history query. *)
Inductive query_result : Type :=
| KV (key : string) (value : string)
| KeyModification (tx_id : string) (timestamp : json) (is_delete : bool)
    (value : string).

Definition value_of (r : query_result) : string :=
  match r with
  | KV _ v => v
  | KeyModification _ _ _ v => v
  end.

(** The answer of [iterator.next()]. *)
Record iter_result : Type := IterResult {
  res_value : option query_result;
  done : bool
}.

(** A cursor: the answers it has still to give, and whether it was closed.
    Once the answers are used up, [next] reports [done] with no value. *)
Record iterator : Type := Iterator {
  pending : list iter_result;
  closed : bool
}.

Definition bool_toString (b : bool) : string := if b then "true" else "false".

(** The body of the [if (res.value && res.value.value.toString())] block:
    the entry pushed for one result. *)
Definition result_entry (isHistory : bool) (r : query_result) : outcome json :=
  let jsonRes := [] in
  if isHistory then
    match r with
    | KeyModification tx_id timestamp is_delete value =>
        let jsonRes := obj_set "TxId" (JString tx_id) jsonRes in
        let jsonRes := obj_set "Timestamp" timestamp jsonRes in
        let jsonRes := obj_set "IsDelete" (JString (bool_toString is_delete)) jsonRes in
        let jsonRes :=
          match JSON_parse value with
          | Some v => obj_set "Value" v jsonRes
          | None => obj_set "Value" (JString value) jsonRes
          end in
        Return (JObject jsonRes)
    | KV _ _ => Throw TypeError
    end
  else
    let jsonRes :=
      match r with
      | KV key _ => obj_set "Key" (JString key) jsonRes
      | KeyModification _ _ _ _ => jsonRes
      end in
    let jsonRes :=
      match JSON_parse (value_of r) with
      | Some v => obj_set "Record" v jsonRes
      | None => obj_set "Value" (JString (value_of r)) jsonRes
      end in
    Return (JObject jsonRes).

(** One turn of the [while (true)] loop per answer of the cursor. *)
Fixpoint getAllResults_loop (answers : list iter_result) (isHistory : bool)
    (allResults : list json) : outcome (list json) * iterator :=
  match answers with
  | [] => (Return allResults, Iterator [] true)
  | res :: rest =>
      let pushed :=
        match res_value res with
        | Some r =>
            if description_truthy (value_of r) then
              match result_entry isHistory r with
              | Return jsonRes => Return (allResults ++ [jsonRes])
              | Throw e => Throw e
              end
            else Return allResults
        | None => Return allResults
        end in
      match pushed with
      | Throw e => (Throw e, Iterator rest false)
      | Return allResults =>
          if done res then (Return allResults, Iterator rest true)
          else getAllResults_loop rest isHistory allResults
      end
  end.

(** [getAllResults(iterator, isHistory)] *)
Definition getAllResults (it : iterator) (isHistory : bool)
  : outcome (list json) * iterator :=
  getAllResults_loop (pending it) isHistory [].

(** [getHistoryForBloodBag(stub, args, thisClass)]; [getHistoryForKey] is the
    stub's. *)
Definition getHistoryForBloodBag (getHistoryForKey : string → iterator)
    (args : list string) : outcome string :=
  match args with
  | ID :: _ =>
      let resultsIterator := getHistoryForKey ID in
      match getAllResults resultsIterator true with
      | (Return results, _) => Return (JSON_stringify (JArray results))
      | (Throw e, _) => Throw e
      end
  | [] => Throw (InvalidArgument "Incorrect number of arguments. Expecting BloodID")
  end.

(** *** Instantiation and dispatch *)

(** What [shim.success] and [shim.error] build. A method that returns nothing
    gives a success without payload. *)
Inductive response : Type :=
| ShimSuccess (payload : option string)
| ShimError (e : error).

(** [Init(stub)]: it reads the function and parameters, logs and answers
    success. *)
Definition Init : M response := ret (ShimSuccess None).

(** How a call of [Invoke] ends: its promise is rejected, with the message of
    the error thrown, or it resolves to a response. [NotEmbedded] stands for
    the names that [this[ret.fcn]] does find but that are no operation of the
    chaincode; what JavaScript does with them is not described here. *)
Inductive invocation : Type :=
| Rejected (message : string)
| Responded (r : response)
| NotEmbedded.

(** The names [this[ret.fcn]] finds besides the six operations: the other
    members of the class and the members of [Object.prototype]. *)
Definition other_members : list string :=
  ["Init"; "Invoke"; "getAllResults"; "constructor"; "__defineGetter__";
   "__defineSetter__"; "hasOwnProperty"; "__lookupGetter__";
   "__lookupSetter__"; "isPrototypeOf"; "propertyIsEnumerable"; "toString";
   "valueOf"; "__proto__"; "toLocaleString"].

(** [this[ret.fcn]] for the six operations, each with the payload it hands
    to [shim.success]. *)
Definition operation (getHistoryForKey : string → iterator) (fcn : string)
  : option (list string → M (option string)) :=
  if String.eqb fcn "createBloodBag" then
    Some (λ params, createBloodBag params;; ret None)
  else if String.eqb fcn "readBloodBag" then
    Some (λ params, payload ← readBloodBag params; ret (Some payload))
  else if String.eqb fcn "deleteBloodBag" then
    Some (λ params, deleteBloodBag params;; ret None)
  else if String.eqb fcn "moveBagToLocation" then
    Some (λ params, moveBagToLocation params;; ret None)
  else if String.eqb fcn "assignBloodBagReceiver" then
    Some (λ params, assignBloodBagReceiver params;; ret None)
  else if String.eqb fcn "getHistoryForBloodBag" then
    Some (λ params,
            match getHistoryForBloodBag getHistoryForKey params with
            | Return payload => ret (Some payload)
            | Throw e => throw e
            end)
  else None.

(** [Invoke(stub)]; [fcn] and [params] are what
    [stub.getFunctionAndParameters()] answers, [getHistoryForKey] is the
    stub's. *)
Definition Invoke (getHistoryForKey : string → iterator) (fcn : string)
    (params : list string) : store → invocation * store :=
  λ s,
    match operation getHistoryForKey fcn with
    | Some method =>
        match method params s with
        | (Return payload, s') => (Responded (ShimSuccess payload), s')
        | (Throw err, s') => (Responded (ShimError err), s')
        end
    | None =>
        if bool_decide (fcn ∈ other_members) then (NotEmbedded, s)
        else (Rejected ("Received unknown function named: " +:+ fcn), s)
    end.

End Chaincode.
Import Chaincode.


(** * Vocabulary of the properties *)

(** ** Records *)

Definition keys (o : list (string * json)) : list string := o.*1.

Definition is_string (v : json) : bool :=
  match v with JString _ => true | _ => false end.

(** Every property of the object is a string, as in a blood-bag record. *)
Definition string_valued (o : list (string * json)) : bool :=
  forallb (λ kv, is_string kv.2) o.

(** Setting the properties of [o] one after the other on [acc], as the
    parser does for the members it reads. *)
Definition obj_set_all (acc o : list (string * json)) : list (string * json) :=
  foldl (λ a kv, obj_set kv.1 kv.2 a) acc o.

(** The text of one member of an object. *)
Definition member_text : string * json → string :=
  λ '(k, x), quote k +:+ ":" +:+ JSON_stringify x.

(** ** The store *)

(** The text stored under a key, empty when there is none: what
    [getState] answers. *)
Definition stored (s : store) (key : string) : string := default "" (s !! key).

(** The key [createCompositeKey] builds for the index [type~id]. *)
Definition index_key (type id : string) : string :=
  String NUL (indexName +:+ String NUL (type +:+ String NUL (id +:+ String NUL ""))).

(** The object [createBloodBag] builds from its six arguments. *)
Definition new_bag (id originId location type rh size : string)
  : list (string * json) :=
  [("docType", JString "bloodbag"); ("id", JString id);
   ("originId", JString originId); ("location", JString location);
   ("status", JString "UNASIGNED"); ("recipient", JString "UNASIGNED");
   ("destination", JString "UNASIGNED"); ("type", JString type);
   ("rh", JString rh); ("size", JString size)].

(** Unfolds the bind, the stub's operations and the property accesses of a
    method body. *)
Ltac step_through :=
  repeat progress
    (unfold mbind, M_bind, bind, throw, ret, getState, putState, deleteState,
       createCompositeKey, get_property, set_property, loose_eq in *;
     cbv beta iota in *).

(** ** History cursors *)

(** A past state of a key, as the ledger's history keeps it. A deletion has
    [snap_is_delete] set and, there being no value left, an empty value. *)
Record snapshot : Type := Snapshot {
  snap_tx_id : string;
  snap_timestamp : json;
  snap_is_delete : bool;
  snap_value : string
}.

Definition to_result (x : snapshot) : query_result :=
  KeyModification (snap_tx_id x) (snap_timestamp x) (snap_is_delete x) (snap_value x).

(** The cursor of [fabric-shim]: the answer carrying the last snapshot
    already says [done]; with no snapshot at all, the first answer does. *)
Fixpoint deliver (l : list query_result) : list iter_result :=
  match l with
  | [] => []
  | [x] => [IterResult (Some x) true]
  | x :: l' => IterResult (Some x) false :: deliver l'
  end.

(** A cursor that follows the iterator protocol to the letter: every
    snapshot comes with [done] unset, and a last answer without value says
    [done]. *)
Definition deliver_then_done (l : list query_result) : list iter_result :=
  ((λ x, IterResult (Some x) false) <$> l) ++ [IterResult None true].

(** The entry a history query gives for a snapshot. *)
Definition history_entry (x : snapshot) : json :=
  JObject
    [("TxId", JString (snap_tx_id x)); ("Timestamp", snap_timestamp x);
     ("IsDelete", JString (bool_toString (snap_is_delete x)));
     ("Value", match JSON_parse (snap_value x) with
               | Some v => v
               | None => JString (snap_value x)
               end)].

(** ** The lifecycle *)

(** What [moveBagToLocation] writes for a record [o]. *)
Definition moved (o : list (string * json)) (location : string)
  : list (string * json) :=
  obj_set "status"
    (JString (match obj_get "destination" o with
              | Some (JString d) =>
                  if String.eqb d location then "RECEIVED" else "INTRANSIT"
              | _ => "INTRANSIT"
              end))
    (obj_set "location" (JString location) o).

(** What [assignBloodBagReceiver] writes for a record [o]. *)
Definition assigned (o : list (string * json)) (recipient destination : string)
  : list (string * json) :=
  obj_set "status" (JString "ASSIGNED")
    (obj_set "destination" (JString destination)
       (obj_set "recipient" (JString recipient) o)).

(** A store holding one freshly created bag. *)
Definition one_bag : store :=
  {["B1" := JSON_stringify (JObject (new_bag "B1" "D1" "Bank" "O" "+" "450"))]}.

(** ** Runs and their invariants *)

(** A transaction: one of the five methods that touch the world state, with
    the arguments [Invoke] hands it. *)
Inductive call : Type :=
| CreateBloodBag (args : list string)
| ReadBloodBag (args : list string)
| DeleteBloodBag (args : list string)
| MoveBagToLocation (args : list string)
| AssignBloodBagReceiver (args : list string).

(** The world state after a transaction. The writes a method made before
    throwing are kept, which covers a ledger that discards them too: there a
    failed transaction is no transaction. *)
Definition submit (c : call) (s : store) : store :=
  match c with
  | CreateBloodBag args => (createBloodBag args s).2
  | ReadBloodBag args => (readBloodBag args s).2
  | DeleteBloodBag args => (deleteBloodBag args s).2
  | MoveBagToLocation args => (moveBagToLocation args s).2
  | AssignBloodBagReceiver args => (assignBloodBagReceiver args s).2
  end.

(** The world state after a list of transactions, from the empty ledger. *)
Definition run (calls : list call) : store := foldl (λ s c, submit c s) ∅ calls.

(** A record as the chaincode writes them: distinct names, string values,
    and the [docType] of a bag. *)
Definition bag_like (o : list (string * json)) : Prop :=
  NoDup (keys o) ∧ string_valued o = true
  ∧ obj_get "docType" o = Some (JString "bloodbag").

(** Every value in the store is an index marker or the text of a bag. *)
Definition bags_only (s : store) : Prop :=
  ∀ k v, s !! k = Some v →
    v = indexValue ∨ ∃ o, v = JSON_stringify (JObject o) ∧ bag_like o.

(** No U+0000 in the text: the separator of composite keys. *)
Fixpoint nul_free (s : string) : bool :=
  match s with
  | EmptyString => true
  | String c r => negb (Ascii.eqb c NUL) && nul_free r
  end.

(** A transaction that does not create a bag whose id or type holds the
    separator. *)
Definition separator_free (c : call) : bool :=
  match c with
  | CreateBloodBag [id; _; _; type; _; _] => nul_free id && nul_free type
  | _ => true
  end.

(** The store holds at [id] the text of a record of strings [o]. *)
Definition holds_record (s : store) (id : string) (o : list (string * json)) : Prop :=
  s !! id = Some (JSON_stringify (JObject o))
  ∧ NoDup (keys o) ∧ string_valued o = true.

(** Every key of the store is the id of a bag with its index entry in
    place, or the index entry of a bag in place. *)
Definition lock_step (s : store) : Prop :=
  ∀ k v, s !! k = Some v →
    (∃ o type, holds_record s k o
       ∧ obj_get "id" o = Some (JString k)
       ∧ obj_get "type" o = Some (JString type)
       ∧ nul_free k = true ∧ k ≠ "" ∧ nul_free type = true ∧ type ≠ ""
       ∧ s !! index_key type k = Some indexValue)
    ∨ (∃ o type id, k = index_key type id ∧ v = indexValue
         ∧ nul_free type = true ∧ nul_free id = true
         ∧ holds_record s id o ∧ obj_get "type" o = Some (JString type)).

(** Two bags whose types and ids join to the same composite key: type [O],
    U+0000, [X] with id [B1], and type [O] with id [X], U+0000, [B1]. *)
Definition colliding_run : list call :=
  [CreateBloodBag ["B1"; "D1"; "Bank"; String "O" (String NUL "X"); "+"; "450"];
   CreateBloodBag [String "X" (String NUL "B1"); "D1"; "Bank"; "O"; "+"; "450"];
   DeleteBloodBag ["B1"]].

(** ** The schema of a bag *)

(** The names of the properties of a bag, in the order [createBloodBag] sets
    them. *)
Definition bag_fields : list string :=
  ["docType"; "id"; "originId"; "location"; "status"; "recipient";
   "destination"; "type"; "rh"; "size"].

(** The texts the chaincode writes into [status]. *)
Definition statuses : list string :=
  ["UNASIGNED"; "INTRANSIT"; "RECEIVED"; "ASSIGNED"].

(** The properties no method changes once the bag is created. *)
Definition immutable_fields : list string :=
  ["docType"; "id"; "originId"; "type"; "rh"; "size"].

(** The property [f] of [o] is a non-empty string. *)
Definition filled (f : string) (o : list (string * json)) : Prop :=
  ∃ x, obj_get f o = Some (JString x) ∧ x ≠ "".

(** [o] is a bag as the chaincode keeps it under the key [k]. *)
Definition bag_at (k : string) (o : list (string * json)) : Prop :=
  keys o = bag_fields ∧ string_valued o = true
  ∧ obj_get "docType" o = Some (JString "bloodbag")
  ∧ obj_get "id" o = Some (JString k) ∧ k ≠ ""
  ∧ filled "originId" o ∧ filled "type" o ∧ filled "rh" o ∧ filled "size" o
  ∧ ∃ st, obj_get "status" o = Some (JString st) ∧ st ∈ statuses.

(** Every value in the store is an index marker or the text of a bag kept
    under its own id. *)
Definition ledger_of_bags (s : store) : Prop :=
  ∀ k v, s !! k = Some v →
    v = indexValue ∨ ∃ o, v = JSON_stringify (JObject o) ∧ bag_at k o.

(** What a transaction throws, if it throws. *)
Definition thrown (c : call) (s : store) : option error :=
  let caught {A} (r : outcome A * store) : option error :=
    match r.1 with
    | Throw e => Some e
    | Return _ => None
    end in
  match c with
  | CreateBloodBag args => caught (createBloodBag args s)
  | ReadBloodBag args => caught (readBloodBag args s)
  | DeleteBloodBag args => caught (deleteBloodBag args s)
  | MoveBagToLocation args => caught (moveBagToLocation args s)
  | AssignBloodBagReceiver args => caught (assignBloodBagReceiver args s)
  end.

(** The errors the chaincode raises itself, as against those of the stub
    and of the runtime. *)
Definition own_error (e : error) : bool :=
  match e with
  | InvalidArgument _ | AlreadyExists _ | NotFound _ | DecodeError _ => true
  | _ => false
  end.

(** ** State queries *)

(** The entry a state query gives for a key and its value. *)
Definition state_entry (kv : string * string) : json :=
  JObject
    [("Key", JString kv.1);
     match JSON_parse kv.2 with
     | Some v => ("Record", v)
     | None => ("Value", JString kv.2)
     end].

(** ** Invocations *)

(** The transaction an invocation stands for, when its name is that of one
    of the five methods that touch the world state. *)
Definition call_named (fcn : string) (params : list string) : option call :=
  if String.eqb fcn "createBloodBag" then Some (CreateBloodBag params)
  else if String.eqb fcn "readBloodBag" then Some (ReadBloodBag params)
  else if String.eqb fcn "deleteBloodBag" then Some (DeleteBloodBag params)
  else if String.eqb fcn "moveBagToLocation" then Some (MoveBagToLocation params)
  else if String.eqb fcn "assignBloodBagReceiver" then
    Some (AssignBloodBagReceiver params)
  else None.

(** The names under which an invocation can write to the ledger. *)
Definition writing_operations : list string :=
  ["createBloodBag"; "deleteBloodBag"; "moveBagToLocation";
   "assignBloodBagReceiver"].

(** The ledger after a list of invocations, from the empty ledger. *)
Definition invoke_all (getHistoryForKey : string → iterator)
    (invocations : list (string * list string)) : store :=
  foldl (λ s i, (Invoke getHistoryForKey i.1 i.2 s).2) ∅ invocations.

(** A short run: a bag is created and moved. *)
Definition sample_run : list call :=
  [CreateBloodBag ["B1"; "D1"; "Bank"; "O"; "+"; "450"];
   MoveBagToLocation ["B1"; "Hospital"]].

(** * Properties *)

(** ** Strings *)

Lemma append_cons (c : ascii) (s t : string) :
  String c s +:+ t = String c (s +:+ t).
Proof. reflexivity. Qed.

Lemma append_empty_l (t : string) : "" +:+ t = t.
Proof. reflexivity. Qed.

Lemma append_assoc (s t u : string) : (s +:+ t) +:+ u = s +:+ (t +:+ u).
Proof.
  induction s as [|c s IH]; [reflexivity|].
  rewrite !append_cons. by f_equal.
Qed.

Lemma length_append (s t : string) :
  String.length (s +:+ t) = String.length s + String.length t.
Proof.
  induction s as [|c s IH]; [reflexivity|].
  rewrite append_cons. simpl. by rewrite IH.
Qed.

Lemma truthy_true (s : string) : truthy s = true ↔ s ≠ "".
Proof.
  unfold truthy. destruct (String.eqb_spec s ""); naive_solver.
Qed.

(** ** The JSON codec *)

(** Reading back one escaped character gives the character. *)
Lemma parse_escape_char (c : ascii) (t : string) :
  parse_string_body (escape_char c +:+ t)
  = prepend (String c "") (parse_string_body t).
Proof.
  destruct c as [[] [] [] [] [] [] [] []]; reflexivity.
Qed.

Lemma parse_string_escape (s rest : string) :
  parse_string_body (escape s +:+ String dquote rest) = Some (s, rest).
Proof.
  induction s as [|c s IH]; [reflexivity|].
  simpl escape. rewrite append_assoc, parse_escape_char, IH. reflexivity.
Qed.

(** *** Objects *)

Lemma obj_get_set_eq k v o : obj_get k (obj_set k v o) = Some v.
Proof.
  induction o as [|[k' v'] o IH]; simpl.
  - by rewrite String.eqb_refl.
  - destruct (String.eqb_spec k k') as [->|Hne]; simpl.
    + by rewrite String.eqb_refl.
    + by destruct (String.eqb_spec k k').
Qed.

Lemma obj_get_set_ne k k' v o : k ≠ k' → obj_get k (obj_set k' v o) = obj_get k o.
Proof.
  intros Hne. induction o as [|[k0 v0] o IH]; simpl.
  - by destruct (String.eqb_spec k k').
  - destruct (String.eqb_spec k' k0) as [->|Hne']; simpl.
    + by destruct (String.eqb_spec k k0).
    + destruct (String.eqb_spec k k0); [done|apply IH].
Qed.

Lemma obj_set_fresh k v o : k ∉ keys o → obj_set k v o = o ++ [(k, v)].
Proof.
  unfold keys. induction o as [|[k' v'] o IH]; simpl; [done|].
  intros Hk. apply not_elem_of_cons in Hk as [Hne Hk].
  destruct (String.eqb_spec k k'); [done|]. by rewrite IH.
Qed.

Lemma keys_obj_set k v o :
  keys (obj_set k v o) = if decide (k ∈ keys o) then keys o else keys o ++ [k].
Proof.
  unfold keys. induction o as [|[k' v'] o IH].
  - destruct (decide (k ∈ _)) as [Hin|_]; [|done]. by apply elem_of_nil in Hin.
  - cbn [obj_set]. destruct (String.eqb_spec k k') as [->|Hne].
    + clear IH. destruct (decide (k' ∈ ((k', v') :: o).*1)) as [|Hnin]; [reflexivity|].
      exfalso. apply Hnin. rewrite fmap_cons. apply elem_of_cons. by left.
    + rewrite fmap_cons, IH. cbn [fst].
      destruct (decide (k ∈ o.*1)) as [Hin|Hnin];
        destruct (decide (k ∈ ((k', v') :: o).*1)) as [Hin'|Hnin'];
        try reflexivity.
      * exfalso. apply Hnin'. rewrite fmap_cons. apply elem_of_cons. by right.
      * exfalso. rewrite fmap_cons in Hin'.
        apply elem_of_cons in Hin' as [?|?]; done.
Qed.

Lemma NoDup_keys_obj_set k v o : NoDup (keys o) → NoDup (keys (obj_set k v o)).
Proof.
  intros Hnd. rewrite keys_obj_set. case_decide; [done|].
  apply NoDup_app. split_and!; [done| |apply NoDup_singleton].
  intros x Hx [->|Hx']%elem_of_cons; [done|]. by apply elem_of_nil in Hx'.
Qed.

Lemma string_valued_obj_set k s o :
  string_valued o = true → string_valued (obj_set k (JString s) o) = true.
Proof.
  unfold string_valued. induction o as [|[k' v'] o IH]; simpl; [done|].
  intros [Hv Ho]%andb_prop.
  destruct (String.eqb k k'); simpl; [done|]. by rewrite Hv, IH.
Qed.

Lemma obj_set_all_fresh o acc :
  NoDup (keys acc ++ keys o) → obj_set_all acc o = acc ++ o.
Proof.
  unfold obj_set_all, keys.
  revert acc. induction o as [|[k v] o IH]; intros acc Hnd; simpl.
  - by rewrite app_nil_r.
  - rewrite obj_set_fresh.
    + rewrite IH; [by rewrite <-app_assoc|].
      rewrite fmap_app, <-app_assoc. done.
    + apply NoDup_app in Hnd as (_ & Hd & _). intros Hin.
      apply (Hd k Hin). rewrite fmap_cons. apply elem_of_cons. by left.
Qed.

Lemma length_members (o : list (string * json)) :
  length o ≤ String.length (join_with member_text o).
Proof.
  induction o as [|[k v] [|kv o] IH]; [simpl; lia| |].
  - cbn [join_with member_text]. unfold quote.
    rewrite append_cons. simpl. lia.
  - change (join_with member_text ((k, v) :: kv :: o))
      with (member_text (k, v) +:+ "," +:+ join_with member_text (kv :: o)).
    rewrite !length_append. simpl in *. lia.
Qed.

Lemma quote_cons (s t : string) :
  quote s +:+ t = String dquote (escape s +:+ String dquote t).
Proof. unfold quote. by rewrite append_cons, append_assoc. Qed.

Lemma member_text_cons (k : string) (x : json) (t : string) :
  member_text (k, x) +:+ t
  = String dquote (escape k +:+ String dquote (String ":" (JSON_stringify x +:+ t))).
Proof. unfold member_text. by rewrite append_assoc, quote_cons, append_assoc. Qed.

Lemma parse_value_quote (s t : string) (f : nat) :
  parse_value (S f) (quote s +:+ t) = Some (JString s, t).
Proof. rewrite quote_cons. simpl. by rewrite parse_string_escape. Qed.

(** One member whose value is a string, and the text after it. *)
Lemma parse_members_member (f : nat) (acc : list (string * json))
    (k s : string) (c : ascii) (t : string) :
  parse_members (S (S f)) acc (member_text (k, JString s) +:+ String c t)
  = if Ascii.eqb c ","
    then parse_members (S f) (obj_set k (JString s) acc) t
    else if Ascii.eqb c "}"
         then Some (JObject (obj_set k (JString s) acc), t)
         else if is_ws c
              then parse_members (S (S f)) acc
                     (member_text (k, JString s) +:+ t)
              else None.
Proof.
  rewrite !member_text_cons.
  remember (S f) as g eqn:Hg. simpl. rewrite !parse_string_escape. simpl.
  subst g. rewrite !parse_value_quote.
  destruct c as [[] [] [] [] [] [] [] []]; try reflexivity.
Qed.

(** The parser reads back the members of a record of strings. *)
Lemma parse_members_strings (o acc : list (string * json)) (f : nat) (rest : string) :
  o ≠ [] → string_valued o = true → length o < f →
  parse_members f acc (join_with member_text o +:+ String "}" rest)
  = Some (JObject (obj_set_all acc o), rest).
Proof.
  revert acc f. induction o as [|[k v] [|kv o] IH]; intros acc f Hne Hs Hf; [done| |].
  - destruct f as [|[|f]]; [simpl in Hf; lia..|].
    destruct v; try discriminate Hs.
    cbn [join_with]. by rewrite parse_members_member.
  - destruct f as [|[|f]]; [simpl in Hf; lia..|].
    destruct v; try discriminate Hs.
    change (join_with member_text ((k, JString s) :: kv :: o))
      with (member_text (k, JString s) +:+ "," +:+ join_with member_text (kv :: o)).
    rewrite !append_assoc, append_cons, append_empty_l, parse_members_member.
    simpl Ascii.eqb. cbv iota.
    rewrite IH; [done|done|apply Hs|simpl in *; lia].
Qed.

Lemma parse_value_object (f : nat) (t : string) :
  parse_value (S f) (String "{" (String dquote t))
  = parse_members f [] (String dquote t).
Proof. reflexivity. Qed.

(** [JSON.parse (JSON.stringify o) = o] for a record of strings. *)
Lemma JSON_parse_stringify (o : list (string * json)) :
  NoDup (keys o) → string_valued o = true →
  JSON_parse (JSON_stringify (JObject o)) = Some (JObject o).
Proof.
  intros Hnd Hs. unfold JSON_parse.
  destruct o as [|kv o]; [reflexivity|].
  cbn [JSON_stringify].
  change (λ '(k, x), quote k +:+ ":" +:+ JSON_stringify x) with member_text.
  pose proof (length_members (kv :: o)) as Hlen.
  set (txt := join_with member_text (kv :: o)) in *.
  rewrite append_cons, append_empty_l.
  assert (∃ c t, txt = String c t ∧ c = dquote) as (c & t & Htxt & ->).
  { subst txt. destruct kv as [k v], o; cbn [join_with member_text];
      unfold quote; rewrite append_cons; eauto. }
  rewrite Htxt, append_cons, parse_value_object, <-append_cons, <-Htxt.
  rewrite (parse_members_strings (kv :: o) [] _ ""); [|done|done|].
  - rewrite obj_set_all_fresh; [done|done].
  - cbn [String.length]. rewrite length_append. lia.
Qed.

(** The members read by the parser have pairwise distinct names. *)
Lemma parse_members_NoDup (f : nat) :
  ∀ (acc : list (string * json)) (s : string) (v : json) (r : string),
    NoDup (keys acc) → parse_members f acc s = Some (v, r) →
    ∃ o, v = JObject o ∧ NoDup (keys o).
Proof.
  induction f as [|f IH]; intros acc s v r Hnd Hp; [discriminate|].
  cbn [parse_members] in Hp.
  repeat case_match; simplify_eq; eauto using NoDup_keys_obj_set.
Qed.

Lemma parse_elements_array (f : nat) :
  ∀ (acc : list json) (s : string) (v : json) (r : string),
    parse_elements f acc s = Some (v, r) → ∃ l, v = JArray l.
Proof.
  induction f as [|f IH]; intros acc s v r Hp; [discriminate|].
  cbn [parse_elements] in Hp.
  repeat case_match; simplify_eq; eauto.
Qed.

Lemma parse_value_object_NoDup (f : nat) (s r : string) (o : list (string * json)) :
  parse_value f s = Some (JObject o, r) → NoDup (keys o).
Proof.
  destruct f as [|f]; [discriminate|]. cbn [parse_value]. unfold parse_literal.
  intros Hp. repeat case_match; simplify_eq; try apply NoDup_nil_2.
  - match goal with H : parse_members _ _ _ = _ |- _ =>
      apply parse_members_NoDup in H as (o' & [= <-] & Hnd); [done|apply NoDup_nil_2]
    end.
  - match goal with H : parse_elements _ _ _ = _ |- _ =>
      apply parse_elements_array in H as (l & [=])
    end.
Qed.

Lemma JSON_parse_object_NoDup (b : string) (o : list (string * json)) :
  JSON_parse b = Some (JObject o) → NoDup (keys o).
Proof.
  unfold JSON_parse. intros Hp.
  destruct (parse_value _ b) as [[v r]|] eqn:Hv; [|done].
  case_match; simplify_eq. by eapply parse_value_object_NoDup.
Qed.

Lemma JSON_parse_empty : JSON_parse "" = None.
Proof. reflexivity. Qed.

Lemma JSON_parse_indexValue : JSON_parse indexValue = None.
Proof. reflexivity. Qed.

Lemma JSON_stringify_object_head (o : list (string * json)) :
  ∃ t, JSON_stringify (JObject o) = String "{" t.
Proof. cbn [JSON_stringify]. rewrite append_cons. eauto. Qed.

(** ** The methods *)

Lemma length_leb_0 (a : string) : a ≠ "" → (String.length a <=? 0) = false.
Proof. by destruct a. Qed.

Lemma eqb_empty_false (a : string) : a ≠ "" → String.eqb a "" = false.
Proof. by destruct a. Qed.

Lemma createBloodBag_fresh (s : store) (id originId location type rh size : string) :
  id ≠ "" → originId ≠ "" → location ≠ "" → type ≠ "" → rh ≠ "" → size ≠ "" →
  stored s id = "" →
  createBloodBag [id; originId; location; type; rh; size] s
  = (Return (),
     <[index_key type id := indexValue]>
       (<[id := JSON_stringify (JObject (new_bag id originId location type rh size))]> s)).
Proof.
  intros H0 H1 H2 H3 H4 H5 Hs. unfold createBloodBag.
  rewrite !length_leb_0 by done. step_through. fold (stored s id). rewrite Hs.
  cbn [truthy String.eqb negb]. cbn [obj_set obj_get String.eqb Ascii.eqb Bool.eqb].
  cbn [validateCompositeKeyAttribute compositeKeyAttributes].
  rewrite !eqb_empty_false by done. reflexivity.
Qed.

Lemma createBloodBag_elsewhere (s : store) (args : list string) :
  (createBloodBag args s).2 = s
  ∨ ∃ id originId location type rh size,
      args = [id; originId; location; type; rh; size]
      ∧ id ≠ "" ∧ originId ≠ "" ∧ location ≠ "" ∧ type ≠ "" ∧ rh ≠ ""
      ∧ size ≠ "" ∧ stored s id = "".
Proof.
  destruct args as [|a0 [|a1 [|a2 [|a3 [|a4 [|a5 [|]]]]]]]; try by left.
  destruct (decide (a0 = "")) as [->|?]; [left; reflexivity|].
  destruct (decide (a1 = "")) as [->|?];
    [left; unfold createBloodBag; rewrite length_leb_0 by done; reflexivity|].
  destruct (decide (a2 = "")) as [->|?];
    [left; unfold createBloodBag; rewrite !length_leb_0 by done; reflexivity|].
  destruct (decide (a3 = "")) as [->|?];
    [left; unfold createBloodBag; rewrite !length_leb_0 by done; reflexivity|].
  destruct (decide (a4 = "")) as [->|?];
    [left; unfold createBloodBag; rewrite !length_leb_0 by done; reflexivity|].
  destruct (decide (a5 = "")) as [->|?];
    [left; unfold createBloodBag; rewrite !length_leb_0 by done; reflexivity|].
  destruct (decide (stored s a0 = "")) as [Hs|Hs].
  - right. by exists a0, a1, a2, a3, a4, a5.
  - left. unfold createBloodBag. rewrite !length_leb_0 by done. step_through.
    fold (stored s a0). rewrite (proj2 (truthy_true _) Hs). reflexivity.
Qed.

Lemma index_key_ne (type id : string) : index_key type id ≠ id.
Proof.
  intros Heq. apply (f_equal String.length) in Heq.
  unfold index_key, indexName in Heq.
  repeat (rewrite ?length_append in Heq; cbn [String.length] in Heq). lia.
Qed.

Lemma new_bag_wf (id originId location type rh size : string) :
  NoDup (keys (new_bag id originId location type rh size))
  ∧ string_valued (new_bag id originId location type rh size) = true.
Proof.
  split; [|reflexivity].
  unfold keys, new_bag. cbn [fmap list_fmap fst].
  apply (bool_decide_unpack _). by vm_compute.
Qed.

Lemma truthy_stringify_object (o : list (string * json)) :
  truthy (JSON_stringify (JObject o)) = true.
Proof. by destruct (JSON_stringify_object_head o) as [t ->]. Qed.

Lemma readBloodBag_spec (s : store) (ID : string) :
  readBloodBag [ID] s
  = (if String.eqb ID "" then
       Throw (InvalidArgument "Blood Bag ID must not be empty")
     else if String.eqb (stored s ID) "" then Throw (NotFound ID)
     else Return (stored s ID), s).
Proof.
  unfold readBloodBag, truthy, stored. step_through.
  destruct (String.eqb ID ""); [reflexivity|]. cbn [negb].
  by destruct (String.eqb (default "" (s !! ID)) "").
Qed.

(** C1 (the code against the claim). For six non-empty arguments and an id
    not yet stored, [createBloodBag] followed by [readBloodBag] on the same id
    returns the text of a record whose [id], [originId], [location], [type],
    [rh] and [size] are the six arguments, and whose [status], [recipient]
    and [destination] all hold the text [UNASIGNED], spelt with one S:
    not the [UNASSIGNED] of the data model. *)
Theorem createBloodBag_then_readBloodBag
    (s : store) (id originId location type rh size : string) :
  id ≠ "" → originId ≠ "" → location ≠ "" → type ≠ "" → rh ≠ "" → size ≠ "" →
  stored s id = "" →
  ∃ (s' : store) (bytes : string) (o : list (string * json)),
    createBloodBag [id; originId; location; type; rh; size] s = (Return (), s')
    ∧ readBloodBag [id] s' = (Return bytes, s')
    ∧ JSON_parse bytes = Some (JObject o)
    ∧ obj_get "id" o = Some (JString id)
    ∧ obj_get "originId" o = Some (JString originId)
    ∧ obj_get "location" o = Some (JString location)
    ∧ obj_get "type" o = Some (JString type)
    ∧ obj_get "rh" o = Some (JString rh)
    ∧ obj_get "size" o = Some (JString size)
    ∧ obj_get "status" o = Some (JString "UNASIGNED")
    ∧ obj_get "recipient" o = Some (JString "UNASIGNED")
    ∧ obj_get "destination" o = Some (JString "UNASIGNED")
    ∧ JString "UNASIGNED" ≠ JString "UNASSIGNED".
Proof.
  intros H0 H1 H2 H3 H4 H5 Hs.
  eexists _, _, (new_bag id originId location type rh size).
  split; [by apply createBloodBag_fresh|].
  assert (stored (<[index_key type id := indexValue]>
            (<[id := JSON_stringify (JObject (new_bag id originId location type rh size))]> s)) id
          = JSON_stringify (JObject (new_bag id originId location type rh size)))
    as Hst.
  { unfold stored. rewrite lookup_insert_ne by apply index_key_ne.
    by rewrite lookup_insert_eq. }
  split.
  { rewrite readBloodBag_spec, Hst, eqb_empty_false by done.
    pose proof (truthy_stringify_object (new_bag id originId location type rh size)) as Ht.
    unfold truthy in Ht. apply negb_true_iff in Ht. by rewrite Ht. }
  split; [apply JSON_parse_stringify; apply new_bag_wf|].
  repeat split; done.
Qed.

Lemma createBloodBag_then_readBloodBag_witness :
  ∃ (s' : store) (bytes : string) (o : list (string * json)),
    createBloodBag ["B1"; "D1"; "Bank"; "O"; "+"; "450"] ∅ = (Return (), s')
    ∧ readBloodBag ["B1"] s' = (Return bytes, s')
    ∧ JSON_parse bytes = Some (JObject o)
    ∧ obj_get "id" o = Some (JString "B1")
    ∧ obj_get "originId" o = Some (JString "D1")
    ∧ obj_get "location" o = Some (JString "Bank")
    ∧ obj_get "type" o = Some (JString "O")
    ∧ obj_get "rh" o = Some (JString "+")
    ∧ obj_get "size" o = Some (JString "450")
    ∧ obj_get "status" o = Some (JString "UNASIGNED")
    ∧ obj_get "recipient" o = Some (JString "UNASIGNED")
    ∧ obj_get "destination" o = Some (JString "UNASIGNED")
    ∧ JString "UNASIGNED" ≠ JString "UNASSIGNED".
Proof.
  apply (createBloodBag_then_readBloodBag ∅ "B1" "D1" "Bank" "O" "+" "450");
    [discriminate..|reflexivity].
Defined.

(** C8. When a non-empty value is already stored at the id, [createBloodBag]
    throws [AlreadyExists] and the store is left as it was, whether or not
    the stored value decodes. *)
Theorem createBloodBag_AlreadyExists
    (s : store) (id originId location type rh size : string) :
  id ≠ "" → originId ≠ "" → location ≠ "" → type ≠ "" → rh ≠ "" → size ≠ "" →
  stored s id ≠ "" →
  createBloodBag [id; originId; location; type; rh; size] s
  = (Throw (AlreadyExists id), s).
Proof.
  intros H0 H1 H2 H3 H4 H5 Hs. unfold createBloodBag.
  rewrite !length_leb_0 by done. step_through. fold (stored s id).
  by rewrite (proj2 (truthy_true _) Hs).
Qed.

Lemma createBloodBag_AlreadyExists_witness :
  stored {["B1" := "not a record"]} "B1" ≠ ""
  ∧ createBloodBag ["B1"; "D1"; "Bank"; "O"; "+"; "450"] {["B1" := "not a record"]}
    = (Throw (AlreadyExists "B1"), {["B1" := "not a record"]}).
Proof.
  split; [discriminate|].
  apply (createBloodBag_AlreadyExists {["B1" := "not a record"]}
           "B1" "D1" "Bank" "O" "+" "450"); discriminate.
Defined.

(** C3, as stated, fails: a stored value that is not JSON is returned as it
    is; [readBloodBag] never decodes and never throws [DecodeError]. *)
Lemma readBloodBag_undecodable_returned :
  JSON_parse (stored {["B1" := "not a record"]} "B1") = None
  ∧ readBloodBag ["B1"] {["B1" := "not a record"]}
    = (Return "not a record", {["B1" := "not a record"]})
  ∧ (readBloodBag ["B1"] {["B1" := "not a record"]}).1 ≠ Throw (DecodeError "B1").
Proof. by vm_compute. Qed.

(** C3, amended. [readBloodBag(id)] throws [NotFound] when the value stored at
    [id] is empty (an absent key reads as empty); otherwise it returns the
    stored text as it is, decodable or not. It leaves the store unchanged. *)
Theorem readBloodBag_returns_stored (s : store) (id : string) :
  id ≠ "" →
  (stored s id = "" → readBloodBag [id] s = (Throw (NotFound id), s))
  ∧ (stored s id ≠ "" → readBloodBag [id] s = (Return (stored s id), s)).
Proof.
  intros Hid. rewrite readBloodBag_spec, eqb_empty_false by done.
  split; intros Hs.
  - by rewrite Hs.
  - by rewrite eqb_empty_false.
Qed.

Lemma readBloodBag_returns_stored_witness :
  (stored {["B1" := "not a record"]} "B1" = "" →
   readBloodBag ["B1"] {["B1" := "not a record"]}
   = (Throw (NotFound "B1"), {["B1" := "not a record"]}))
  ∧ (stored {["B1" := "not a record"]} "B1" ≠ "" →
     readBloodBag ["B1"] {["B1" := "not a record"]}
     = (Return (stored {["B1" := "not a record"]} "B1"),
        {["B1" := "not a record"]})).
Proof.
  apply (readBloodBag_returns_stored {["B1" := "not a record"]} "B1").
  discriminate.
Defined.

(** C4 (the code against the claim). For an id with no stored value,
    [deleteBloodBag] does not throw [NotFound]: the buffer [getState] answers
    is an object, so [!bagAsBytes] is false, and the method goes on to parse
    the empty text and throws the decode error. Nothing is deleted. *)
Theorem deleteBloodBag_absent_DecodeError (s : store) (id : string) :
  id ≠ "" → stored s id = "" →
  deleteBloodBag [id] s = (Throw (DecodeError id), s)
  ∧ (deleteBloodBag [id] s).1 ≠ Throw (NotFound id).
Proof.
  intros Hid Hs. unfold deleteBloodBag, truthy, stored in *.
  rewrite eqb_empty_false by done. step_through. cbn [negb buffer_truthy]. cbv beta.
  by rewrite Hs.
Qed.

Lemma deleteBloodBag_absent_DecodeError_witness :
  deleteBloodBag ["B1"] ∅ = (Throw (DecodeError "B1"), ∅)
  ∧ (deleteBloodBag ["B1"] ∅).1 ≠ Throw (NotFound "B1").
Proof.
  apply (deleteBloodBag_absent_DecodeError ∅ "B1"); [discriminate|reflexivity].
Defined.

(** The sound half of C4: stored text that does not parse makes
    [deleteBloodBag] throw the decode error with the store untouched. *)
Lemma deleteBloodBag_undecodable (s : store) (id : string) :
  id ≠ "" → JSON_parse (stored s id) = None →
  deleteBloodBag [id] s = (Throw (DecodeError id), s).
Proof.
  intros Hid Hs. unfold deleteBloodBag, truthy, stored in *.
  rewrite eqb_empty_false by done. step_through. cbn [negb buffer_truthy]. cbv beta.
  by rewrite Hs.
Qed.

(** ** History *)

Lemma result_entry_history (x : snapshot) :
  result_entry true (to_result x) = Return (history_entry x).
Proof.
  unfold result_entry, history_entry, to_result.
  by destruct (JSON_parse (snap_value x)).
Qed.

Lemma getAllResults_loop_deliver (l : list snapshot) (acc : list json) :
  getAllResults_loop (deliver (to_result <$> l)) true acc
  = (Return (acc ++ (history_entry <$> l)), Iterator [] true).
Proof.
  revert acc. induction l as [|x [|y l] IH]; intros acc.
  - cbn. by rewrite app_nil_r.
  - cbn [fmap list_fmap deliver getAllResults_loop res_value done
         description_truthy].
    by rewrite result_entry_history.
  - change (deliver (to_result <$> x :: y :: l))
      with (IterResult (Some (to_result x)) false :: deliver (to_result <$> y :: l)).
    cbn [getAllResults_loop res_value done description_truthy].
    rewrite result_entry_history, IH, <-app_assoc. done.
Qed.

Lemma getAllResults_loop_deliver_then_done (l : list snapshot) (acc : list json) :
  getAllResults_loop (deliver_then_done (to_result <$> l)) true acc
  = (Return (acc ++ (history_entry <$> l)), Iterator [] true).
Proof.
  unfold deliver_then_done. revert acc. induction l as [|x l IH]; intros acc.
  - cbn. by rewrite app_nil_r.
  - cbn [fmap list_fmap app getAllResults_loop res_value done description_truthy].
    rewrite result_entry_history, IH, <-app_assoc. done.
Qed.

(** C5. A history cursor that delivers three writes and then a deletion
    makes [getAllResults], with [isHistory] true, return four entries in the
    order delivered and close the cursor, whether the cursor says [done]
    with its last snapshot or after it; [getHistoryForBloodBag] over such a
    cursor returns a payload. Each entry ([history_entry]) holds the
    transaction id, the timestamp, the text of the deletion flag and the
    value of its snapshot. The last entry is flagged as a deletion: its
    [IsDelete] is the text [true]. The value of an entry is the decoded
    record; when the text of the second snapshot does not decode, the second
    entry holds that text as it is, and the run goes on to the end. *)
Theorem getAllResults_history
    (w1 w2 w3 d : snapshot) (ID : string) (rest : list string) :
  snap_is_delete d = true →
  getAllResults (Iterator (deliver (to_result <$> [w1; w2; w3; d])) false) true
  = (Return [history_entry w1; history_entry w2; history_entry w3; history_entry d],
     Iterator [] true)
  ∧ getAllResults (Iterator (deliver_then_done (to_result <$> [w1; w2; w3; d])) false)
      true
    = (Return [history_entry w1; history_entry w2; history_entry w3; history_entry d],
       Iterator [] true)
  ∧ (∃ payload,
       getHistoryForBloodBag
         (λ _, Iterator (deliver (to_result <$> [w1; w2; w3; d])) false) (ID :: rest)
       = Return payload)
  ∧ (∃ e, history_entry d = JObject e
          ∧ obj_get "TxId" e = Some (JString (snap_tx_id d))
          ∧ obj_get "IsDelete" e = Some (JString "true"))
  ∧ (∃ e, history_entry w2 = JObject e
          ∧ obj_get "TxId" e = Some (JString (snap_tx_id w2))
          ∧ (∀ v, JSON_parse (snap_value w2) = Some v → obj_get "Value" e = Some v)
          ∧ (JSON_parse (snap_value w2) = None →
             obj_get "Value" e = Some (JString (snap_value w2)))).
Proof.
  intros Hd. unfold getHistoryForBloodBag, getAllResults. cbn [pending].
  rewrite getAllResults_loop_deliver, getAllResults_loop_deliver_then_done.
  do 2 (split; [reflexivity|]). split; [by eexists|].
  unfold history_entry. split.
  - eexists. split; [reflexivity|]. rewrite Hd. by split.
  - eexists. split; [reflexivity|]. split; [done|].
    cbn [obj_get]. cbn. split; [by intros v ->|by intros ->].
Qed.

(** Three writes, the second one corrupted, and a deletion: four entries,
    the second with the raw text, the last one the deletion. *)
Lemma getAllResults_history_witness :
  getAllResults
    (Iterator
       (deliver
          [KeyModification "tx1" JNull false "{}";
           KeyModification "tx2" JNull false "{oops";
           KeyModification "tx3" JNull false "{}";
           KeyModification "tx4" JNull true ""]) false) true
  = (Return
       [JObject [("TxId", JString "tx1"); ("Timestamp", JNull);
                 ("IsDelete", JString "false"); ("Value", JObject [])];
        JObject [("TxId", JString "tx2"); ("Timestamp", JNull);
                 ("IsDelete", JString "false"); ("Value", JString "{oops")];
        JObject [("TxId", JString "tx3"); ("Timestamp", JNull);
                 ("IsDelete", JString "false"); ("Value", JObject [])];
        JObject [("TxId", JString "tx4"); ("Timestamp", JNull);
                 ("IsDelete", JString "true"); ("Value", JString "")]],
     Iterator [] true).
Proof.
  exact (proj1 (getAllResults_history
                  (Snapshot "tx1" JNull false "{}")
                  (Snapshot "tx2" JNull false "{oops")
                  (Snapshot "tx3" JNull false "{}")
                  (Snapshot "tx4" JNull true "") "B1" [] eq_refl)).
Defined.

(** ** The lifecycle methods on a stored record *)

Lemma parse_Some_truthy (b : string) (v : json) :
  JSON_parse b = Some v → truthy b = true.
Proof. destruct b; [discriminate|done]. Qed.

Lemma string_valued_get (o : list (string * json)) (k : string) :
  string_valued o = true →
  obj_get k o = None ∨ ∃ x, obj_get k o = Some (JString x).
Proof.
  unfold string_valued. induction o as [|[k' v] o IH]; simpl; [by left|].
  intros [Hv Ho]%andb_prop. destruct (String.eqb k k'); [|by apply IH].
  destruct v; try discriminate. right. eauto.
Qed.

Lemma moveBagToLocation_record (s : store) (ID location : string)
    (rest : list string) (o : list (string * json)) :
  JSON_parse (stored s ID) = Some (JObject o) →
  (obj_get "destination" o = None ∨ ∃ d, obj_get "destination" o = Some (JString d)) →
  moveBagToLocation (ID :: location :: rest) s
  = (Return (), <[ID := JSON_stringify (JObject (moved o location))]> s).
Proof.
  intros Hp Hd. unfold moveBagToLocation, moved, stored in *. step_through.
  cbv beta. rewrite (parse_Some_truthy _ _ Hp), Hp. cbn [negb orb buffer_truthy].
  destruct Hd as [->|[d ->]]; [reflexivity|].
  by destruct (String.eqb d location).
Qed.

Lemma assignBloodBagReceiver_record (s : store) (ID recipient destination : string)
    (rest : list string) (o : list (string * json)) :
  JSON_parse (stored s ID) = Some (JObject o) →
  assignBloodBagReceiver (ID :: recipient :: destination :: rest) s
  = (Return (), <[ID := JSON_stringify (JObject (assigned o recipient destination))]> s).
Proof.
  intros Hp. unfold assignBloodBagReceiver, assigned, stored in *. step_through.
  cbv beta. by rewrite (parse_Some_truthy _ _ Hp), Hp.
Qed.

Lemma moved_wf (o : list (string * json)) (location : string) :
  NoDup (keys o) → string_valued o = true →
  NoDup (keys (moved o location)) ∧ string_valued (moved o location) = true.
Proof.
  intros Hnd Hs. unfold moved.
  split; [by do 2 apply NoDup_keys_obj_set|by do 2 apply string_valued_obj_set].
Qed.

Lemma assigned_wf (o : list (string * json)) (recipient destination : string) :
  NoDup (keys o) → string_valued o = true →
  NoDup (keys (assigned o recipient destination))
  ∧ string_valued (assigned o recipient destination) = true.
Proof.
  intros Hnd Hs. unfold assigned.
  split; [by do 3 apply NoDup_keys_obj_set|by do 3 apply string_valued_obj_set].
Qed.

Lemma stored_insert_eq (s : store) (k v : string) : stored (<[k := v]> s) k = v.
Proof. unfold stored. by rewrite lookup_insert_eq. Qed.

(** C6. On a stored value that decodes to a record, an object whose
    properties are strings, [moveBagToLocation] returns, rewrites the record
    under the same id and leaves every other key of the store as it was. In
    the record read back, [location] is the new location; [status] is
    [RECEIVED] when the [destination] of the record was the new location,
    and [INTRANSIT] when it was anything else, the sentinel of a bag not yet
    assigned and no destination at all included; every other property is
    as it was before. *)
Theorem moveBagToLocation_transition
    (s : store) (id newLocation : string) (o : list (string * json)) :
  JSON_parse (stored s id) = Some (JObject o) →
  string_valued o = true →
  ∃ (s' : store) (o' : list (string * json)),
    moveBagToLocation [id; newLocation] s = (Return (), s')
    ∧ (∀ k, k ≠ id → s' !! k = s !! k)
    ∧ JSON_parse (stored s' id) = Some (JObject o')
    ∧ obj_get "location" o' = Some (JString newLocation)
    ∧ (obj_get "destination" o = Some (JString newLocation) →
       obj_get "status" o' = Some (JString "RECEIVED"))
    ∧ (obj_get "destination" o ≠ Some (JString newLocation) →
       obj_get "status" o' = Some (JString "INTRANSIT"))
    ∧ (∀ k, k ≠ "location" → k ≠ "status" → obj_get k o' = obj_get k o).
Proof.
  intros Hp Hs. pose proof (JSON_parse_object_NoDup _ _ Hp) as Hnd.
  destruct (moved_wf o newLocation Hnd Hs) as [Hnd' Hs'].
  exists (<[id := JSON_stringify (JObject (moved o newLocation))]> s),
    (moved o newLocation).
  split; [apply moveBagToLocation_record; [done|by apply string_valued_get]|].
  split; [intros k Hk; by rewrite lookup_insert_ne|].
  split; [rewrite stored_insert_eq; by apply JSON_parse_stringify|].
  unfold moved.
  split; [by rewrite obj_get_set_ne, obj_get_set_eq|].
  split; [intros ->; by rewrite obj_get_set_eq, String.eqb_refl|].
  split.
  - intros Hne. rewrite obj_get_set_eq.
    destruct (string_valued_get o "destination" Hs) as [->|[d Hd]]; [done|].
    rewrite Hd in *. by destruct (String.eqb_spec d newLocation) as [->|].
  - intros k Hk1 Hk2. by rewrite !obj_get_set_ne.
Qed.

Lemma moveBagToLocation_transition_witness :
  ∃ (s' : store) (o' : list (string * json)),
    moveBagToLocation ["B1"; "Hospital"] one_bag = (Return (), s')
    ∧ (∀ k, k ≠ "B1" → s' !! k = one_bag !! k)
    ∧ JSON_parse (stored s' "B1") = Some (JObject o')
    ∧ obj_get "location" o' = Some (JString "Hospital")
    ∧ (obj_get "destination" (new_bag "B1" "D1" "Bank" "O" "+" "450")
       = Some (JString "Hospital") →
       obj_get "status" o' = Some (JString "RECEIVED"))
    ∧ (obj_get "destination" (new_bag "B1" "D1" "Bank" "O" "+" "450")
       ≠ Some (JString "Hospital") →
       obj_get "status" o' = Some (JString "INTRANSIT"))
    ∧ (∀ k, k ≠ "location" → k ≠ "status" →
            obj_get k o' = obj_get k (new_bag "B1" "D1" "Bank" "O" "+" "450")).
Proof.
  apply (moveBagToLocation_transition one_bag "B1" "Hospital"
           (new_bag "B1" "D1" "Bank" "O" "+" "450")); reflexivity.
Defined.

(** A destination written in the stored text as the escape of a surrogate
    without its partner is no location an argument can name: moving the bag
    to U+FFFD, the character a buffer shows in place of such a surrogate,
    leaves it in transit. *)
Example moveBagToLocation_escaped_surrogate :
  let text :=
    "{" +:+ quote "destination" +:+ ":"
    +:+ String dquote (String backslash "ud800") +:+ String dquote "}" in
  let s : store := {["B1" := text]} in
  JSON_parse text = Some (JObject [("destination", JString (utf8 55296))])
  ∧ (moveBagToLocation ["B1"; utf8 65533] s).1 = Return ()
  ∧ JSON_parse (stored (moveBagToLocation ["B1"; utf8 65533] s).2 "B1")
    = Some (JObject [("destination", JString (utf8 55296));
                     ("location", JString (utf8 65533));
                     ("status", JString "INTRANSIT")]).
Proof. by vm_compute. Qed.

Lemma obj_set_idem k v1 v2 o : obj_set k v2 (obj_set k v1 o) = obj_set k v2 o.
Proof.
  induction o as [|[k' v'] o IH]; simpl.
  - by rewrite String.eqb_refl.
  - destruct (String.eqb_spec k k') as [->|Hne]; simpl.
    + by rewrite String.eqb_refl.
    + destruct (String.eqb_spec k k'); [done|]. by rewrite IH.
Qed.

Lemma elem_of_keys_obj_set k k' v o :
  k ∈ keys (obj_set k' v o) ↔ k = k' ∨ k ∈ keys o.
Proof.
  rewrite keys_obj_set. destruct (decide (k' ∈ keys o)) as [Hin|Hnin].
  - split; [by right|]. by intros [->|?].
  - rewrite elem_of_app, list_elem_of_singleton. tauto.
Qed.

(** Setting a property the object already has commutes with any other
    assignment: its place in the object is settled. *)
Lemma obj_set_comm k k' v v' o :
  k ≠ k' → k ∈ keys o →
  obj_set k v (obj_set k' v' o) = obj_set k' v' (obj_set k v o).
Proof.
  intros Hne. unfold keys. induction o as [|[k0 v0] o IH]; intros Hin.
  - by apply elem_of_nil in Hin.
  - rewrite fmap_cons in Hin. cbn [fst] in Hin.
    cbn [obj_set].
    destruct (String.eqb_spec k' k0) as [->|Hne'];
      destruct (String.eqb_spec k k0) as [->|Hne'']; try done; cbn [obj_set].
    + destruct (String.eqb_spec k k0); [done|].
      by rewrite String.eqb_refl.
    + rewrite String.eqb_refl. by destruct (String.eqb_spec k' k0).
    + destruct (String.eqb_spec k k0); [done|].
      destruct (String.eqb_spec k' k0); [done|].
      rewrite IH; [done|]. by apply elem_of_cons in Hin as [?|?].
Qed.

Lemma assigned_assigned (o : list (string * json)) (r1 d1 r2 d2 : string) :
  assigned (assigned o r1 d1) r2 d2 = assigned o r2 d2.
Proof.
  unfold assigned.
  set (o1 := obj_set "recipient" (JString r1) o).
  rewrite (obj_set_comm "recipient" "status"); [|done|].
  2:{ apply elem_of_keys_obj_set. right. apply elem_of_keys_obj_set. by left. }
  rewrite (obj_set_comm "recipient" "destination"); [|done|].
  2:{ apply elem_of_keys_obj_set. by left. }
  subst o1. rewrite obj_set_idem.
  rewrite (obj_set_comm "destination" "status"); [|done|].
  2:{ apply elem_of_keys_obj_set. by left. }
  by rewrite !obj_set_idem.
Qed.

(** C7. On a stored record that decodes, [assignBloodBagReceiver] sets
    [recipient] and [destination] to its arguments and [status] to
    [ASSIGNED], whatever was assigned before. Two calls in a row both return,
    and they leave the store as the second call alone would: the record holds
    the second recipient and destination. *)
Theorem assignBloodBagReceiver_last_write_wins
    (s : store) (id r1 d1 r2 d2 : string) (o : list (string * json)) :
  JSON_parse (stored s id) = Some (JObject o) →
  string_valued o = true →
  ∃ (s1 s2 : store) (o1 o2 : list (string * json)),
    assignBloodBagReceiver [id; r1; d1] s = (Return (), s1)
    ∧ JSON_parse (stored s1 id) = Some (JObject o1)
    ∧ obj_get "recipient" o1 = Some (JString r1)
    ∧ obj_get "destination" o1 = Some (JString d1)
    ∧ obj_get "status" o1 = Some (JString "ASSIGNED")
    ∧ assignBloodBagReceiver [id; r2; d2] s1 = (Return (), s2)
    ∧ JSON_parse (stored s2 id) = Some (JObject o2)
    ∧ obj_get "recipient" o2 = Some (JString r2)
    ∧ obj_get "destination" o2 = Some (JString d2)
    ∧ obj_get "status" o2 = Some (JString "ASSIGNED")
    ∧ assignBloodBagReceiver [id; r2; d2] s = (Return (), s2).
Proof.
  intros Hp Hs. pose proof (JSON_parse_object_NoDup _ _ Hp) as Hnd.
  destruct (assigned_wf o r1 d1 Hnd Hs) as [Hnd1 Hs1].
  destruct (assigned_wf o r2 d2 Hnd Hs) as [Hnd2 Hs2].
  assert (∀ r d, obj_get "recipient" (assigned o r d) = Some (JString r)
                 ∧ obj_get "destination" (assigned o r d) = Some (JString d)
                 ∧ obj_get "status" (assigned o r d) = Some (JString "ASSIGNED"))
    as Hfields.
  { intros r d. unfold assigned.
    rewrite !(obj_get_set_ne "recipient") by done.
    rewrite !(obj_get_set_ne "destination" "status") by done.
    by rewrite !obj_get_set_eq. }
  set (s1 := <[id := JSON_stringify (JObject (assigned o r1 d1))]> s).
  assert (JSON_parse (stored s1 id) = Some (JObject (assigned o r1 d1))) as Hp1.
  { subst s1. rewrite stored_insert_eq. by apply JSON_parse_stringify. }
  exists s1, (<[id := JSON_stringify (JObject (assigned o r2 d2))]> s),
    (assigned o r1 d1), (assigned o r2 d2).
  split; [by apply assignBloodBagReceiver_record|].
  split; [done|].
  destruct (Hfields r1 d1) as (-> & -> & ->).
  destruct (Hfields r2 d2) as (-> & -> & ->).
  do 3 (split; [done|]).
  split.
  { rewrite (assignBloodBagReceiver_record s1 id r2 d2 [] _ Hp1).
    subst s1. by rewrite assigned_assigned, insert_insert_eq. }
  split; [rewrite stored_insert_eq; by apply JSON_parse_stringify|].
  do 3 (split; [done|]).
  by apply assignBloodBagReceiver_record.
Qed.

Lemma assignBloodBagReceiver_last_write_wins_witness :
  ∃ (s1 s2 : store) (o1 o2 : list (string * json)),
    assignBloodBagReceiver ["B1"; "R1"; "Hospital"] one_bag = (Return (), s1)
    ∧ JSON_parse (stored s1 "B1") = Some (JObject o1)
    ∧ obj_get "recipient" o1 = Some (JString "R1")
    ∧ obj_get "destination" o1 = Some (JString "Hospital")
    ∧ obj_get "status" o1 = Some (JString "ASSIGNED")
    ∧ assignBloodBagReceiver ["B1"; "R2"; "Clinic"] s1 = (Return (), s2)
    ∧ JSON_parse (stored s2 "B1") = Some (JObject o2)
    ∧ obj_get "recipient" o2 = Some (JString "R2")
    ∧ obj_get "destination" o2 = Some (JString "Clinic")
    ∧ obj_get "status" o2 = Some (JString "ASSIGNED")
    ∧ assignBloodBagReceiver ["B1"; "R2"; "Clinic"] one_bag = (Return (), s2).
Proof.
  apply (assignBloodBagReceiver_last_write_wins one_bag "B1" "R1" "Hospital"
           "R2" "Clinic" (new_bag "B1" "D1" "Bank" "O" "+" "450")); reflexivity.
Defined.

(** C9. On a stored value that decodes to a record, an object whose
    properties are strings, [moveBagToLocation] and [assignBloodBagReceiver]
    return and rewrite the whole record under the same id. In the record
    read back after [moveBagToLocation], every property but [location] and
    [status] is as it was before: [id], [originId], [type], [rh], [size],
    [recipient] and [destination] among them. In the record read back after
    [assignBloodBagReceiver], every property but [recipient], [destination]
    and [status] is as it was before: [id], [originId], [type], [rh], [size]
    and [location] among them. In both cases every other key of the store
    keeps its value. *)
Theorem mutators_frame
    (s : store) (id a b : string) (o : list (string * json)) :
  JSON_parse (stored s id) = Some (JObject o) →
  string_valued o = true →
  (∃ (s' : store) (o' : list (string * json)),
     moveBagToLocation [id; a] s = (Return (), s')
     ∧ (∀ k, k ≠ id → s' !! k = s !! k)
     ∧ JSON_parse (stored s' id) = Some (JObject o')
     ∧ (∀ k, k ≠ "location" → k ≠ "status" → obj_get k o' = obj_get k o))
  ∧ (∃ (s' : store) (o' : list (string * json)),
       assignBloodBagReceiver [id; a; b] s = (Return (), s')
       ∧ (∀ k, k ≠ id → s' !! k = s !! k)
       ∧ JSON_parse (stored s' id) = Some (JObject o')
       ∧ (∀ k, k ≠ "recipient" → k ≠ "destination" → k ≠ "status" →
               obj_get k o' = obj_get k o)).
Proof.
  intros Hp Hs. pose proof (JSON_parse_object_NoDup _ _ Hp) as Hnd. split.
  - exists (<[id := JSON_stringify (JObject (moved o a))]> s), (moved o a).
    split; [apply moveBagToLocation_record; [done|by apply string_valued_get]|].
    split; [intros k Hk; by rewrite lookup_insert_ne|].
    split; [rewrite stored_insert_eq; by apply JSON_parse_stringify; apply moved_wf|].
    intros k Hk1 Hk2. unfold moved. by rewrite !obj_get_set_ne.
  - exists (<[id := JSON_stringify (JObject (assigned o a b))]> s), (assigned o a b).
    split; [by apply assignBloodBagReceiver_record|].
    split; [intros k Hk; by rewrite lookup_insert_ne|].
    split; [rewrite stored_insert_eq;
            by apply JSON_parse_stringify; apply assigned_wf|].
    intros k Hk1 Hk2 Hk3. unfold assigned. by rewrite !obj_get_set_ne.
Qed.

Lemma mutators_frame_witness :
  (∃ (s' : store) (o' : list (string * json)),
     moveBagToLocation ["B1"; "Hospital"] one_bag = (Return (), s')
     ∧ (∀ k, k ≠ "B1" → s' !! k = one_bag !! k)
     ∧ JSON_parse (stored s' "B1") = Some (JObject o')
     ∧ (∀ k, k ≠ "location" → k ≠ "status" →
             obj_get k o' = obj_get k (new_bag "B1" "D1" "Bank" "O" "+" "450")))
  ∧ (∃ (s' : store) (o' : list (string * json)),
       assignBloodBagReceiver ["B1"; "Hospital"; "Clinic"] one_bag = (Return (), s')
       ∧ (∀ k, k ≠ "B1" → s' !! k = one_bag !! k)
       ∧ JSON_parse (stored s' "B1") = Some (JObject o')
       ∧ (∀ k, k ≠ "recipient" → k ≠ "destination" → k ≠ "status" →
               obj_get k o' = obj_get k (new_bag "B1" "D1" "Bank" "O" "+" "450"))).
Proof.
  apply (mutators_frame one_bag "B1" "Hospital" "Clinic"
           (new_bag "B1" "D1" "Bank" "O" "+" "450")); reflexivity.
Defined.

(** ** Runs of the chaincode *)

Lemma run_snoc (calls : list call) (c : call) :
  run (calls ++ [c]) = submit c (run calls).
Proof. unfold run. by rewrite foldl_app. Qed.

Lemma readBloodBag_store (args : list string) (s : store) :
  (readBloodBag args s).2 = s.
Proof.
  destruct args as [|ID [|]]; try reflexivity.
  rewrite readBloodBag_spec. reflexivity.
Qed.

(** [deleteBloodBag] only ever removes keys. *)
Lemma deleteBloodBag_lookup (args : list string) (s : store) (k v : string) :
  (deleteBloodBag args s).2 !! k = Some v → s !! k = Some v.
Proof.
  destruct args as [|ID [|]]; try done.
  unfold deleteBloodBag. step_through. cbn [buffer_truthy negb].
  destruct (negb (truthy ID)); [done|].
  destruct (JSON_parse (default "" (s !! ID))) as [bagJSON|]; [|done].
  assert (∀ k', delete k' (delete ID s) !! k = Some v → s !! k = Some v) as Hdel.
  { intros k' [_ [_ H]%lookup_delete_Some]%lookup_delete_Some. done. }
  assert (delete ID s !! k = Some v → s !! k = Some v) as Hdel1.
  { by intros [_ H]%lookup_delete_Some. }
  destruct bagJSON; cbn [fst snd]; try done;
    repeat (case_match; simplify_eq; cbn [fst snd] in * ); eauto.
Qed.

Lemma moveBagToLocation_no_record (s : store) (ID location : string)
    (rest : list string) :
  JSON_parse (stored s ID) = None →
  (moveBagToLocation (ID :: location :: rest) s).2 = s.
Proof.
  intros Hp. unfold moveBagToLocation, stored in *. step_through. rewrite Hp.
  by destruct (_ || _).
Qed.

Lemma assignBloodBagReceiver_no_record (s : store) (ID recipient destination : string)
    (rest : list string) :
  JSON_parse (stored s ID) = None →
  (assignBloodBagReceiver (ID :: recipient :: destination :: rest) s).2 = s.
Proof.
  intros Hp. unfold assignBloodBagReceiver, stored in *. step_through. rewrite Hp.
  by destruct (_ || _).
Qed.

(** *** Every stored record is a bag *)

Lemma bag_like_new_bag (id originId location type rh size : string) :
  bag_like (new_bag id originId location type rh size).
Proof. split; [apply new_bag_wf|]. split; [apply new_bag_wf|done]. Qed.

Lemma bag_like_moved (o : list (string * json)) (location : string) :
  bag_like o → bag_like (moved o location).
Proof.
  intros (Hnd & Hs & Hd). destruct (moved_wf o location Hnd Hs) as [??].
  split_and!; [done..|]. unfold moved. by rewrite !obj_get_set_ne.
Qed.

Lemma bag_like_assigned (o : list (string * json)) (recipient destination : string) :
  bag_like o → bag_like (assigned o recipient destination).
Proof.
  intros (Hnd & Hs & Hd).
  destruct (assigned_wf o recipient destination Hnd Hs) as [??].
  split_and!; [done..|]. unfold assigned. by rewrite !obj_get_set_ne.
Qed.

Lemma bags_only_insert (s : store) (k v : string) :
  bags_only s →
  (v = indexValue ∨ ∃ o, v = JSON_stringify (JObject o) ∧ bag_like o) →
  bags_only (<[k := v]> s).
Proof.
  intros Hs Hv k' v'. rewrite lookup_insert. case_decide; [|apply Hs].
  by intros [= <-].
Qed.

(** What the store holds at a key, under [bags_only], as the parser sees it. *)
Lemma bags_only_parse (s : store) (k : string) :
  bags_only s →
  JSON_parse (stored s k) = None
  ∨ ∃ o, s !! k = Some (JSON_stringify (JObject o)) ∧ bag_like o
         ∧ JSON_parse (stored s k) = Some (JObject o).
Proof.
  intros Hs. unfold stored. destruct (s !! k) as [v|] eqn:Hk; [|by left].
  destruct (Hs k v Hk) as [->|(o & -> & Ho)]; [by left|].
  right. exists o. split_and!; [done..|].
  destruct Ho as (? & ? & _). by apply JSON_parse_stringify.
Qed.

Lemma bags_only_submit (c : call) (s : store) :
  bags_only s → bags_only (submit c s).
Proof.
  intros Hs. destruct c as [args|args|args|args|args]; cbn [submit].
  - destruct (createBloodBag_elsewhere s args)
      as [->|(id & oid & loc & ty & rh & sz & -> & ? & ? & ? & ? & ? & ? & ?)];
      [done|].
    rewrite createBloodBag_fresh by done. cbn [snd].
    apply bags_only_insert; [|by left].
    apply bags_only_insert; [done|]. right. eauto using bag_like_new_bag.
  - by rewrite readBloodBag_store.
  - intros k v Hk. apply deleteBloodBag_lookup in Hk. exact (Hs k v Hk).
  - destruct args as [|ID [|location rest]]; try done.
    destruct (bags_only_parse s ID Hs) as [Hp|(o & Hk & Ho & Hp)].
    + by rewrite moveBagToLocation_no_record.
    + rewrite (moveBagToLocation_record _ _ _ _ o) by
        (destruct Ho as (_ & Hv & _); eauto using string_valued_get).
      cbn [snd]. apply bags_only_insert; [done|].
      right. eauto using bag_like_moved.
  - destruct args as [|ID [|recipient [|destination rest]]]; try done.
    destruct (bags_only_parse s ID Hs) as [Hp|(o & Hk & Ho & Hp)].
    + by rewrite assignBloodBagReceiver_no_record.
    + rewrite (assignBloodBagReceiver_record _ _ _ _ _ o) by done.
      cbn [snd]. apply bags_only_insert; [done|].
      right. eauto using bag_like_assigned.
Qed.

Lemma bags_only_run (calls : list call) : bags_only (run calls).
Proof.
  induction calls as [|c calls IH] using rev_ind.
  - intros k v Hk. change (run []) with (∅ : store) in Hk.
    by rewrite lookup_empty in Hk.
  - rewrite run_snoc. by apply bags_only_submit.
Qed.

(** C10. The record [createBloodBag] stores has a tenth property, [docType],
    equal to [bloodbag], and [moveBagToLocation] and
    [assignBloodBagReceiver] keep it: after any transactions on an empty
    ledger, every stored value that decodes as a record has [docType] equal
    to [bloodbag]. *)
Theorem stored_records_have_docType
    (calls : list call) (k : string) (o : list (string * json)) :
  JSON_parse (stored (run calls) k) = Some (JObject o) →
  obj_get "docType" o = Some (JString "bloodbag").
Proof.
  intros Hp.
  destruct (bags_only_parse _ k (bags_only_run calls))
    as [Hn|(o' & _ & (_ & _ & Hd) & Hp')]; [congruence|].
  congruence.
Qed.

Lemma stored_records_have_docType_witness :
  JSON_parse
    (stored (run [CreateBloodBag ["B1"; "D1"; "Bank"; "O"; "+"; "450"];
                  MoveBagToLocation ["B1"; "Hospital"]]) "B1")
  = Some (JObject (moved (new_bag "B1" "D1" "Bank" "O" "+" "450") "Hospital"))
  ∧ obj_get "docType" (moved (new_bag "B1" "D1" "Bank" "O" "+" "450") "Hospital")
    = Some (JString "bloodbag").
Proof.
  split; [by vm_compute|].
  apply (stored_records_have_docType
           [CreateBloodBag ["B1"; "D1"; "Bank"; "O"; "+"; "450"];
            MoveBagToLocation ["B1"; "Hospital"]] "B1").
  by vm_compute.
Defined.

(** *** The index follows the records *)

Lemma append_nul_inj (a b x y : string) :
  nul_free a = true → nul_free b = true →
  a +:+ String NUL x = b +:+ String NUL y → a = b ∧ x = y.
Proof.
  revert b. induction a as [|c a IH]; intros [|c' b] Ha Hb Heq;
    rewrite ?append_cons, ?append_empty_l in Heq; simplify_eq.
  - done.
  - cbn in Ha, Hb. apply andb_prop in Ha as [_ Ha]. apply andb_prop in Hb as [_ Hb].
    destruct (IH b Ha Hb) as [-> ->]; done.
Qed.

Lemma index_key_inj (type id type' id' : string) :
  nul_free type = true → nul_free type' = true →
  nul_free id = true → nul_free id' = true →
  index_key type id = index_key type' id' → type = type' ∧ id = id'.
Proof.
  intros Ht Ht' Hi Hi' Heq. unfold index_key in Heq. simplify_eq.
  apply append_nul_inj in Heq as [-> Heq]; [|done..].
  by apply append_nul_inj in Heq as [-> _].
Qed.

Lemma nul_free_index_key (type id : string) : nul_free (index_key type id) = false.
Proof. reflexivity. Qed.

Lemma nul_free_ne_index_key (k type id : string) :
  nul_free k = true → k ≠ index_key type id.
Proof. intros Hk ->. by rewrite nul_free_index_key in Hk. Qed.

Lemma stringify_object_ne_indexValue (o : list (string * json)) :
  JSON_stringify (JObject o) ≠ indexValue.
Proof. by destruct (JSON_stringify_object_head o) as [t ->]. Qed.

Lemma holds_record_parse (s : store) (id : string) (o : list (string * json)) :
  holds_record s id o → JSON_parse (stored s id) = Some (JObject o).
Proof.
  intros (Hk & ? & ?). unfold stored. rewrite Hk. by apply JSON_parse_stringify.
Qed.

Lemma holds_record_unique (s : store) (id : string) (o o' : list (string * json)) :
  holds_record s id o → holds_record s id o' → o = o'.
Proof.
  intros H1%holds_record_parse H2%holds_record_parse. congruence.
Qed.

Lemma deleteBloodBag_record (s : store) (ID type id : string)
    (o : list (string * json)) :
  ID ≠ "" → JSON_parse (stored s ID) = Some (JObject o) →
  obj_get "type" o = Some (JString type) → type ≠ "" →
  obj_get "id" o = Some (JString id) → id ≠ "" →
  deleteBloodBag [ID] s = (Return (), delete (index_key type id) (delete ID s)).
Proof.
  intros HID Hp Hty Hty' Hid Hid'. unfold deleteBloodBag, truthy, stored in *.
  rewrite eqb_empty_false by done. step_through. cbn [negb buffer_truthy].
  rewrite Hp. step_through. rewrite Hty, Hid.
  cbn [validateCompositeKeyAttribute compositeKeyAttributes].
  rewrite !eqb_empty_false by done. reflexivity.
Qed.

(** Under [lock_step] a key reads as empty only when it is absent. *)
Lemma lock_step_stored_empty (s : store) (k : string) :
  lock_step s → stored s k = "" → s !! k = None.
Proof.
  intros Hs Hk. unfold stored in Hk. destruct (s !! k) as [v|] eqn:Hv; [|done].
  cbn in Hk. subst v.
  destruct (Hs k "" Hv) as [(o & ty & (Hr & _) & _)|(o & ty & id & _ & [=] & _)].
  rewrite Hv in Hr. destruct (JSON_stringify_object_head o) as [t Ht].
  rewrite Ht in Hr. discriminate.
Qed.

(** What [lock_step] says of the value at a key, as the parser sees it. *)
Lemma lock_step_parse (s : store) (k : string) :
  lock_step s →
  JSON_parse (stored s k) = None
  ∨ ∃ o type, holds_record s k o
       ∧ obj_get "id" o = Some (JString k)
       ∧ obj_get "type" o = Some (JString type)
       ∧ nul_free k = true ∧ k ≠ "" ∧ nul_free type = true ∧ type ≠ ""
       ∧ s !! index_key type k = Some indexValue.
Proof.
  intros Hs. destruct (s !! k) as [v|] eqn:Hv.
  - destruct (Hs k v Hv) as [?|(o & ty & id & _ & -> & _)]; [by right|].
    left. unfold stored. by rewrite Hv.
  - left. unfold stored. by rewrite Hv.
Qed.

Lemma holds_record_insert_ne (s : store) (k v id : string) (o : list (string * json)) :
  k ≠ id → holds_record s id o → holds_record (<[k := v]> s) id o.
Proof. intros Hne (? & ? & ?). split; [by rewrite lookup_insert_ne|done]. Qed.

Lemma holds_record_delete_ne (s : store) (k id : string) (o : list (string * json)) :
  k ≠ id → holds_record s id o → holds_record (delete k s) id o.
Proof. intros Hne (? & ? & ?). split; [by rewrite lookup_delete_ne|done]. Qed.

(** Writing back a record with its [id] and [type] untouched keeps the
    index in step. *)
Lemma lock_step_rewrite (s : store) (ID : string) (o o' : list (string * json)) :
  lock_step s → holds_record s ID o →
  obj_get "id" o' = obj_get "id" o → obj_get "type" o' = obj_get "type" o →
  NoDup (keys o') → string_valued o' = true →
  lock_step (<[ID := JSON_stringify (JObject o')]> s).
Proof.
  intros Hs Ho Hid Hty Hnd Hsv.
  assert (holds_record (<[ID := JSON_stringify (JObject o')]> s) ID o') as Ho'.
  { split; [by rewrite lookup_insert_eq|done]. }
  assert (nul_free ID = true) as HID.
  { destruct Ho as (HI & _). destruct (Hs ID _ HI)
      as [(? & ? & _ & _ & _ & ? & _)|(? & ? & ? & _ & Hv & _)]; [done|].
    by apply stringify_object_ne_indexValue in Hv. }
  intros k v Hk. destruct (decide (k = ID)) as [->|Hne].
  - destruct Ho as (HI & Ho). destruct (Hs ID _ HI)
      as [(o0 & ty & Ho0 & ? & ? & ? & ? & ? & ? & ?)|(? & ? & ? & _ & Hv & _)];
      [|by apply stringify_object_ne_indexValue in Hv].
    assert (o0 = o) as -> by (eapply holds_record_unique; [done|by split]).
    left. exists o', ty. split_and!; try done; [congruence..|].
    rewrite lookup_insert_ne; [done|].
    by apply nul_free_ne_index_key.
  - rewrite lookup_insert_ne in Hk by done.
    destruct (Hs k v Hk)
      as [(o1 & ty & Ho1 & ? & ? & ? & ? & ? & ? & ?)
         |(o1 & ty & id & -> & -> & ? & ? & Ho1 & ?)].
    + left. exists o1, ty. split_and!; try done.
      * by apply holds_record_insert_ne.
      * rewrite lookup_insert_ne; [done|].
        by apply nul_free_ne_index_key.
    + right. destruct (decide (id = ID)) as [->|Hne'].
      * assert (o1 = o) as -> by by eapply holds_record_unique.
        exists o', ty, ID. split_and!; try done. congruence.
      * exists o1, ty, id. split_and!; try done.
        by apply holds_record_insert_ne.
Qed.

Lemma lock_step_create (s : store) (id originId location type rh size : string) :
  lock_step s → id ≠ "" → type ≠ "" →
  nul_free id = true → nul_free type = true → stored s id = "" →
  lock_step
    (<[index_key type id := indexValue]>
       (<[id := JSON_stringify (JObject (new_bag id originId location type rh size))]> s)).
Proof.
  intros Hs Hid Hty Hnid Hnty Hst.
  set (o := new_bag id originId location type rh size).
  pose proof (lock_step_stored_empty s id Hs Hst) as Hnone.
  assert (index_key type id ≠ id) as Hik by apply index_key_ne.
  assert (holds_record
            (<[index_key type id := indexValue]>
               (<[id := JSON_stringify (JObject o)]> s)) id o) as Ho.
  { split; [|apply new_bag_wf].
    rewrite lookup_insert_ne by done. by rewrite lookup_insert_eq. }
  intros k v Hk.
  destruct (decide (k = index_key type id)) as [->|Hne1].
  { rewrite lookup_insert_eq in Hk. simplify_eq.
    right. by exists o, type, id. }
  rewrite lookup_insert_ne in Hk by done.
  destruct (decide (k = id)) as [->|Hne2].
  { left. exists o, type. split_and!; try done. by rewrite lookup_insert_eq. }
  rewrite lookup_insert_ne in Hk by done.
  assert (∀ id' o', id' ≠ index_key type id → holds_record s id' o' →
            holds_record
              (<[index_key type id := indexValue]>
                 (<[id := JSON_stringify (JObject o)]> s)) id' o') as Hkeep.
  { intros id' o' Hne Ho'. apply holds_record_insert_ne; [done|].
    apply holds_record_insert_ne; [|done].
    intros <-. destruct Ho' as (Ho' & _). congruence. }
  destruct (Hs k v Hk)
    as [(o1 & ty & Ho1 & ? & ? & ? & ? & ? & ? & Hidx)
       |(o1 & ty & id1 & -> & -> & ? & ? & Ho1 & ?)].
  - left. exists o1, ty. split_and!; try done; [by apply Hkeep|].
    destruct (decide (index_key type id = index_key ty k)) as [->|Hne3];
      [by rewrite lookup_insert_eq|].
    rewrite lookup_insert_ne by done. rewrite lookup_insert_ne; [done|].
    by apply nul_free_ne_index_key.
  - right. exists o1, ty, id1. split_and!; try done. apply Hkeep; [|done].
    by apply nul_free_ne_index_key.
Qed.

Lemma lock_step_delete (s : store) (ID type : string) (o : list (string * json)) :
  lock_step s → holds_record s ID o →
  obj_get "type" o = Some (JString type) →
  nul_free ID = true → nul_free type = true →
  lock_step (delete (index_key type ID) (delete ID s)).
Proof.
  intros Hs Ho Hty HnID Hnty k v Hk.
  apply lookup_delete_Some in Hk as [Hne1 Hk].
  apply lookup_delete_Some in Hk as [Hne2 Hk].
  assert (∀ id' o', id' ≠ index_key type ID → id' ≠ ID → holds_record s id' o' →
            holds_record (delete (index_key type ID) (delete ID s)) id' o') as Hkeep.
  { intros id' o' ? ? Ho'. by do 2 (apply holds_record_delete_ne; [done|]). }
  destruct (Hs k v Hk)
    as [(o1 & ty & Ho1 & ? & ? & ? & ? & ? & ? & Hidx)
       |(o1 & ty & id1 & -> & -> & ? & ? & Ho1 & ?)].
  - left. exists o1, ty. split_and!; try done; [by apply Hkeep|].
    rewrite lookup_delete_ne.
    + rewrite lookup_delete_ne; [done|]. by apply nul_free_ne_index_key.
    + intros Heq. apply index_key_inj in Heq as [_ ->]; done.
  - right. exists o1, ty, id1. split_and!; try done. apply Hkeep; [|  |done].
    + by apply nul_free_ne_index_key.
    + intros ->. assert (o1 = o) as -> by by eapply holds_record_unique.
      apply Hne1. congruence.
Qed.

Lemma lock_step_submit (c : call) (s : store) :
  separator_free c = true → lock_step s → lock_step (submit c s).
Proof.
  intros Hc Hs. destruct c as [args|args|args|args|args]; cbn [submit].
  - destruct (createBloodBag_elsewhere s args)
      as [->|(id & oid & loc & ty & rh & sz & -> & ? & ? & ? & ? & ? & ? & ?)];
      [done|].
    rewrite createBloodBag_fresh by done. cbn [snd].
    cbn [separator_free] in Hc. apply andb_prop in Hc as [??].
    by apply lock_step_create.
  - by rewrite readBloodBag_store.
  - destruct args as [|ID [|]]; try done.
    destruct (decide (ID = "")) as [->|HID]; [done|].
    destruct (lock_step_parse s ID Hs)
      as [Hp|(o & ty & Ho & Hid & Hty & ? & ? & ? & ? & ?)].
    + by rewrite deleteBloodBag_undecodable.
    + rewrite (deleteBloodBag_record s ID ty ID o);
        eauto using holds_record_parse.
      cbn [snd]. by eapply lock_step_delete.
  - destruct args as [|ID [|location rest]]; try done.
    destruct (lock_step_parse s ID Hs)
      as [Hp|(o & ty & Ho & Hid & Hty & ? & ? & ? & ? & ?)].
    + by rewrite moveBagToLocation_no_record.
    + pose proof Ho as (_ & Hnd & Hsv).
      rewrite (moveBagToLocation_record _ _ _ _ o);
        eauto using holds_record_parse, string_valued_get.
      cbn [snd]. destruct (moved_wf o location Hnd Hsv).
      eapply lock_step_rewrite; eauto; unfold moved; by rewrite !obj_get_set_ne.
  - destruct args as [|ID [|recipient [|destination rest]]]; try done.
    destruct (lock_step_parse s ID Hs)
      as [Hp|(o & ty & Ho & Hid & Hty & ? & ? & ? & ? & ?)].
    + by rewrite assignBloodBagReceiver_no_record.
    + pose proof Ho as (_ & Hnd & Hsv).
      rewrite (assignBloodBagReceiver_record _ _ _ _ _ o);
        eauto using holds_record_parse.
      cbn [snd]. destruct (assigned_wf o recipient destination Hnd Hsv).
      eapply lock_step_rewrite; eauto; unfold assigned; by rewrite !obj_get_set_ne.
Qed.

Lemma lock_step_run (calls : list call) :
  forallb separator_free calls = true → lock_step (run calls).
Proof.
  induction calls as [|c calls IH] using rev_ind; intros Hc.
  - intros k v Hk. change (run []) with (∅ : store) in Hk.
    by rewrite lookup_empty in Hk.
  - rewrite forallb_app in Hc. apply andb_prop in Hc as [Hc Hc'].
    cbn in Hc'. rewrite andb_true_r in Hc'.
    rewrite run_snoc. by apply lock_step_submit; [|apply IH].
Qed.

(** C2, as stated, fails: the two bags of [colliding_run] share one index
    entry, and deleting the first removes it; the second bag is then stored
    without an index entry. *)
Lemma index_lost_on_collision :
  JSON_parse (stored (run colliding_run) (String "X" (String NUL "B1")))
  = Some (JObject (new_bag (String "X" (String NUL "B1")) "D1" "Bank" "O" "+" "450"))
  ∧ obj_get "type" (new_bag (String "X" (String NUL "B1")) "D1" "Bank" "O" "+" "450")
    = Some (JString "O")
  ∧ stored (run colliding_run) (index_key "O" (String "X" (String NUL "B1"))) = "".
Proof. by vm_compute. Qed.

(** C2, amended. After any transactions on an empty ledger that create no bag
    whose id or type holds U+0000, the separator of composite keys, the index
    follows the records: for a type and an id without the separator, the
    entry at the composite key of [type~id] for that type and id is present
    exactly when a record of that type is stored at the id. *)
Theorem index_follows_records (calls : list call) (type id : string) :
  forallb separator_free calls = true →
  nul_free type = true → nul_free id = true →
  stored (run calls) (index_key type id) ≠ ""
  ↔ ∃ o, JSON_parse (stored (run calls) id) = Some (JObject o)
         ∧ obj_get "type" o = Some (JString type).
Proof.
  intros Hc Hty Hid. pose proof (lock_step_run calls Hc) as Hs. split.
  - intros Hk. unfold stored in Hk.
    destruct (run calls !! index_key type id) as [v|] eqn:Hv; [|done].
    destruct (Hs _ v Hv)
      as [(_ & _ & _ & _ & _ & Hn & _)|(o & ty & id' & Heq & _ & ? & ? & Ho & ?)].
    + by rewrite nul_free_index_key in Hn.
    + apply index_key_inj in Heq as [-> ->]; [|done..].
      exists o. split; [by apply holds_record_parse|done].
  - intros (o & Hp & Ho).
    destruct (lock_step_parse _ id Hs)
      as [Hn|(o' & ty & Ho' & _ & Hty' & _ & _ & _ & _ & Hidx)]; [congruence|].
    apply holds_record_parse in Ho'.
    assert (o' = o) as -> by congruence.
    assert (ty = type) as -> by congruence.
    unfold stored. by rewrite Hidx.
Qed.

Lemma index_follows_records_witness :
  stored (run [CreateBloodBag ["B1"; "D1"; "Bank"; "O"; "+"; "450"];
               CreateBloodBag ["B2"; "D1"; "Bank"; "O"; "+"; "450"];
               DeleteBloodBag ["B1"]]) (index_key "O" "B1") ≠ ""
  ↔ ∃ o, JSON_parse
           (stored (run [CreateBloodBag ["B1"; "D1"; "Bank"; "O"; "+"; "450"];
                         CreateBloodBag ["B2"; "D1"; "Bank"; "O"; "+"; "450"];
                         DeleteBloodBag ["B1"]]) "B1") = Some (JObject o)
         ∧ obj_get "type" o = Some (JString "O").
Proof.
  apply (index_follows_records
           [CreateBloodBag ["B1"; "D1"; "Bank"; "O"; "+"; "450"];
            CreateBloodBag ["B2"; "D1"; "Bank"; "O"; "+"; "450"];
            DeleteBloodBag ["B1"]] "O" "B1"); reflexivity.
Defined.

(** * More of the chaincode *)

(** ** Creation *)

(** The three ways [createBloodBag] ends. *)
Lemma createBloodBag_cases (args : list string) (s : store) :
  (∃ id originId location type rh size,
     args = [id; originId; location; type; rh; size]
     ∧ id ≠ "" ∧ originId ≠ "" ∧ location ≠ "" ∧ type ≠ "" ∧ rh ≠ ""
     ∧ size ≠ "" ∧ stored s id = ""
     ∧ createBloodBag args s
       = (Return (),
          <[index_key type id := indexValue]>
            (<[id := JSON_stringify
                       (JObject (new_bag id originId location type rh size))]> s)))
  ∨ (∃ msg, createBloodBag args s = (Throw (InvalidArgument msg), s))
  ∨ (∃ id rest, args = id :: rest ∧ stored s id ≠ ""
       ∧ createBloodBag args s = (Throw (AlreadyExists id), s)).
Proof.
  destruct args as [|a0 [|a1 [|a2 [|a3 [|a4 [|a5 [|]]]]]]];
    try (right; left; eexists; reflexivity).
  destruct (decide (a0 = "")) as [->|?];
    [right; left; eexists; reflexivity|].
  destruct (decide (a1 = "")) as [->|?];
    [right; left; eexists; unfold createBloodBag;
     rewrite length_leb_0 by done; reflexivity|].
  destruct (decide (a2 = "")) as [->|?];
    [right; left; eexists; unfold createBloodBag;
     rewrite !length_leb_0 by done; reflexivity|].
  destruct (decide (a3 = "")) as [->|?];
    [right; left; eexists; unfold createBloodBag;
     rewrite !length_leb_0 by done; reflexivity|].
  destruct (decide (a4 = "")) as [->|?];
    [right; left; eexists; unfold createBloodBag;
     rewrite !length_leb_0 by done; reflexivity|].
  destruct (decide (a5 = "")) as [->|?];
    [right; left; eexists; unfold createBloodBag;
     rewrite !length_leb_0 by done; reflexivity|].
  destruct (decide (stored s a0 = "")) as [Hs|Hs].
  - left. exists a0, a1, a2, a3, a4, a5. split_and!; try done.
    by apply createBloodBag_fresh.
  - right. right. exists a0, [a1; a2; a3; a4; a5]. split_and!; try done.
    unfold createBloodBag. rewrite !length_leb_0 by done. step_through.
    fold (stored s a0). rewrite (proj2 (truthy_true _) Hs). reflexivity.
Qed.

(** X1. [createBloodBag] returns exactly when it is given six non-empty
    arguments and nothing is stored at the id. In every other case it throws
    an argument error or [AlreadyExists] and the ledger is as before. *)
Theorem createBloodBag_returns_iff (args : list string) (s : store) :
  ((createBloodBag args s).1 = Return ()
   ↔ ∃ id originId location type rh size,
       args = [id; originId; location; type; rh; size]
       ∧ id ≠ "" ∧ originId ≠ "" ∧ location ≠ "" ∧ type ≠ "" ∧ rh ≠ ""
       ∧ size ≠ "" ∧ stored s id = "")
  ∧ ((createBloodBag args s).1 = Return ()
     ∨ (createBloodBag args s).2 = s
       ∧ ∃ e, (createBloodBag args s).1 = Throw e
              ∧ ((∃ msg, e = InvalidArgument msg) ∨ ∃ id, e = AlreadyExists id)).
Proof.
  destruct (createBloodBag_cases args s)
    as [(id & oid & loc & ty & rh & sz & -> & ? & ? & ? & ? & ? & ? & ? & Hr)
       |[[msg Hr]|(id & rest & -> & Hs & Hr)]]; rewrite Hr; cbn [fst snd].
  - split; [|by left]. split; [|done]. intros _.
    by exists id, oid, loc, ty, rh, sz.
  - split; [|right; eauto 6]. split; [done|].
    intros (id & oid & loc & ty & rh & sz & -> & ? & ? & ? & ? & ? & ? & ?).
    rewrite createBloodBag_fresh in Hr by done. discriminate.
  - split; [|right; eauto 6]. split; [done|].
    intros (id' & oid & loc & ty & rh & sz & [= <- ->] & ? & ? & ? & ? & ? & ? & ?).
    done.
Qed.

(** X2. A successful [createBloodBag] writes two keys and no other: the
    record under the id and the one-character marker under the composite key
    of [type~id], which is never the id itself. Every other key reads as
    before. *)
Theorem createBloodBag_frame
    (s : store) (id originId location type rh size : string) :
  id ≠ "" → originId ≠ "" → location ≠ "" → type ≠ "" → rh ≠ "" → size ≠ "" →
  stored s id = "" →
  ∃ s' : store,
    createBloodBag [id; originId; location; type; rh; size] s = (Return (), s')
    ∧ index_key type id ≠ id
    ∧ stored s' (index_key type id) = indexValue
    ∧ stored s' id
      = JSON_stringify (JObject (new_bag id originId location type rh size))
    ∧ ∀ k, k ≠ id → k ≠ index_key type id → s' !! k = s !! k.
Proof.
  intros. eexists. split; [by apply createBloodBag_fresh|].
  pose proof (index_key_ne type id) as Hne.
  split; [done|]. split; [by rewrite stored_insert_eq|]. split.
  - unfold stored. rewrite lookup_insert_ne by done. by rewrite lookup_insert_eq.
  - intros k ? ?. by rewrite !lookup_insert_ne.
Qed.

Lemma createBloodBag_frame_witness :
  ∃ s' : store,
    createBloodBag ["B2"; "D1"; "Bank"; "O"; "+"; "450"] one_bag = (Return (), s')
    ∧ index_key "O" "B2" ≠ "B2"
    ∧ stored s' (index_key "O" "B2") = indexValue
    ∧ stored s' "B2"
      = JSON_stringify (JObject (new_bag "B2" "D1" "Bank" "O" "+" "450"))
    ∧ ∀ k, k ≠ "B2" → k ≠ index_key "O" "B2" → s' !! k = one_bag !! k.
Proof.
  apply (createBloodBag_frame one_bag "B2" "D1" "Bank" "O" "+" "450");
    [discriminate..|reflexivity].
Defined.

(** ** Deletion *)

Lemma new_bag_parse (s : store) (id originId location type rh size : string) :
  stored s id = JSON_stringify (JObject (new_bag id originId location type rh size)) →
  JSON_parse (stored s id)
  = Some (JObject (new_bag id originId location type rh size)).
Proof. intros ->. apply JSON_parse_stringify; apply new_bag_wf. Qed.

(** X3. Creating a bag and deleting it again gives back the ledger as it
    was, when neither the id nor the composite key was in use: deletion
    removes the record and its index entry and nothing else. *)
Theorem createBloodBag_deleteBloodBag
    (s : store) (id originId location type rh size : string) :
  id ≠ "" → originId ≠ "" → location ≠ "" → type ≠ "" → rh ≠ "" → size ≠ "" →
  s !! id = None → s !! index_key type id = None →
  ∃ s' : store,
    createBloodBag [id; originId; location; type; rh; size] s = (Return (), s')
    ∧ deleteBloodBag [id] s' = (Return (), s).
Proof.
  intros ? ? ? ? ? ? Hid Hik. eexists. split.
  { apply createBloodBag_fresh; try done. unfold stored. by rewrite Hid. }
  pose proof (index_key_ne type id) as Hne.
  rewrite (deleteBloodBag_record _ id type id
             (new_bag id originId location type rh size)); try done.
  - f_equal. rewrite delete_insert_ne by (intros Heq; by apply Hne).
    rewrite (delete_insert_id s id) by done. by rewrite delete_insert_id.
  - apply new_bag_parse. unfold stored.
    rewrite lookup_insert_ne by done. by rewrite lookup_insert_eq.
Qed.

Lemma createBloodBag_deleteBloodBag_witness :
  ∃ s' : store,
    createBloodBag ["B2"; "D1"; "Bank"; "O"; "+"; "450"] one_bag = (Return (), s')
    ∧ deleteBloodBag ["B2"] s' = (Return (), one_bag).
Proof.
  apply (createBloodBag_deleteBloodBag one_bag "B2" "D1" "Bank" "O" "+" "450");
    try discriminate; reflexivity.
Defined.

Lemma moveBagToLocation_absent (s : store) (ID location : string)
    (rest : list string) :
  stored s ID = "" →
  moveBagToLocation (ID :: location :: rest) s = (Throw (NotFound ID), s).
Proof.
  intros Hs. unfold moveBagToLocation, stored in *. step_through. by rewrite Hs.
Qed.

Lemma assignBloodBagReceiver_absent (s : store) (ID recipient destination : string)
    (rest : list string) :
  stored s ID = "" →
  assignBloodBagReceiver (ID :: recipient :: destination :: rest) s
  = (Throw (NotFound ID), s).
Proof.
  intros Hs. unfold assignBloodBagReceiver, stored in *. step_through.
  by rewrite Hs.
Qed.

(** X4. After [deleteBloodBag] has returned, the id is free again:
    [readBloodBag], [moveBagToLocation] and [assignBloodBagReceiver] on it
    throw [NotFound]. The deletion touches the id and the composite key built
    from the record's own [type] and [id], and no other key. *)
Theorem deleteBloodBag_then_NotFound
    (s : store) (ID type id a b : string) (o : list (string * json)) :
  ID ≠ "" → JSON_parse (stored s ID) = Some (JObject o) →
  obj_get "type" o = Some (JString type) → type ≠ "" →
  obj_get "id" o = Some (JString id) → id ≠ "" →
  ∃ s' : store,
    deleteBloodBag [ID] s = (Return (), s')
    ∧ readBloodBag [ID] s' = (Throw (NotFound ID), s')
    ∧ moveBagToLocation [ID; a] s' = (Throw (NotFound ID), s')
    ∧ assignBloodBagReceiver [ID; a; b] s' = (Throw (NotFound ID), s')
    ∧ ∀ k, k ≠ ID → k ≠ index_key type id → s' !! k = s !! k.
Proof.
  intros HID Hp Hty ? Hid ?. eexists.
  split; [by eapply deleteBloodBag_record|].
  assert (stored (delete (index_key type id) (delete ID s)) ID = "") as Hgone.
  { unfold stored. destruct (decide (index_key type id = ID)) as [->|Hne].
    - by rewrite lookup_delete_eq.
    - rewrite lookup_delete_ne by done. by rewrite lookup_delete_eq. }
  split_and!.
  - by rewrite readBloodBag_spec, Hgone, eqb_empty_false.
  - by apply moveBagToLocation_absent.
  - by apply assignBloodBagReceiver_absent.
  - intros k ? ?. by rewrite !lookup_delete_ne.
Qed.

Lemma deleteBloodBag_then_NotFound_witness :
  ∃ s' : store,
    deleteBloodBag ["B1"] one_bag = (Return (), s')
    ∧ readBloodBag ["B1"] s' = (Throw (NotFound "B1"), s')
    ∧ moveBagToLocation ["B1"; "Hospital"] s' = (Throw (NotFound "B1"), s')
    ∧ assignBloodBagReceiver ["B1"; "Hospital"; "R1"] s'
      = (Throw (NotFound "B1"), s')
    ∧ ∀ k, k ≠ "B1" → k ≠ index_key "O" "B1" → s' !! k = one_bag !! k.
Proof.
  apply (deleteBloodBag_then_NotFound one_bag "B1" "O" "B1" "Hospital" "R1"
           (new_bag "B1" "D1" "Bank" "O" "+" "450"));
    try discriminate; reflexivity.
Defined.

(** X5. [deleteBloodBag] removes the record before it builds the composite
    key. When the stored object has no usable [type] or [id] (a missing,
    empty or non-string property), the stub refuses the key and the method
    throws with the record already deleted. *)
Theorem deleteBloodBag_record_without_type
    (s : store) (ID : string) (o : list (string * json)) :
  ID ≠ "" → JSON_parse (stored s ID) = Some (JObject o) →
  validateCompositeKeyAttribute (obj_get "type" o) = None
  ∨ validateCompositeKeyAttribute (obj_get "id" o) = None →
  ∃ msg, deleteBloodBag [ID] s = (Throw (StubError msg), delete ID s).
Proof.
  intros HID Hp Hbad. unfold deleteBloodBag, truthy, stored in *.
  rewrite eqb_empty_false by done. step_through. cbn [negb buffer_truthy].
  rewrite Hp. step_through. cbn [compositeKeyAttributes].
  destruct Hbad as [-> | Hbad]; [eauto|].
  rewrite Hbad. destruct (validateCompositeKeyAttribute (obj_get "type" o)); eauto.
Qed.

Lemma deleteBloodBag_record_without_type_witness :
  ∃ msg,
    deleteBloodBag ["B1"] {["B1" := "{}"]}
    = (Throw (StubError msg), delete "B1" {["B1" := "{}"]}).
Proof.
  apply (deleteBloodBag_record_without_type {["B1" := "{}"]} "B1" []);
    [discriminate|reflexivity|by left].
Defined.

(** ** The lifecycle methods *)

Lemma moveBagToLocation_throws (s : store) (ID a : string) (rest : list string) :
  JSON_parse (stored s ID) = None →
  moveBagToLocation (ID :: a :: rest) s
  = (Throw (if String.eqb (stored s ID) "" then NotFound ID else DecodeError ID), s).
Proof.
  intros Hp. unfold moveBagToLocation, truthy, stored in *.
  step_through. rewrite Hp. cbn [buffer_truthy negb orb].
  by destruct (String.eqb (default "" (s !! ID)) "").
Qed.

Lemma assignBloodBagReceiver_throws (s : store) (ID a b : string)
    (rest : list string) :
  JSON_parse (stored s ID) = None →
  assignBloodBagReceiver (ID :: a :: b :: rest) s
  = (Throw (if String.eqb (stored s ID) "" then NotFound ID else DecodeError ID), s).
Proof.
  intros Hp. unfold assignBloodBagReceiver, truthy, stored in *.
  step_through. rewrite Hp. cbn [buffer_truthy negb orb].
  by destruct (String.eqb (default "" (s !! ID)) "").
Qed.

(** X6. When the value stored at the id does not decode, [moveBagToLocation]
    and [assignBloodBagReceiver] throw and write nothing: [NotFound] when
    the value is empty (an absent key reads as empty), [DecodeError] when
    it is not. *)
Theorem mutators_without_record (s : store) (ID a b : string) (rest : list string) :
  JSON_parse (stored s ID) = None →
  moveBagToLocation (ID :: a :: rest) s
  = (Throw (if String.eqb (stored s ID) "" then NotFound ID else DecodeError ID), s)
  ∧ assignBloodBagReceiver (ID :: a :: b :: rest) s
    = (Throw (if String.eqb (stored s ID) "" then NotFound ID else DecodeError ID), s).
Proof.
  intros Hp. split;
    [by apply moveBagToLocation_throws|by apply assignBloodBagReceiver_throws].
Qed.

Lemma mutators_without_record_witness :
  moveBagToLocation ["B2"; "Hospital"] one_bag
  = (Throw (if String.eqb (stored one_bag "B2") "" then NotFound "B2"
            else DecodeError "B2"), one_bag)
  ∧ assignBloodBagReceiver ["B2"; "Hospital"; "R1"] one_bag
    = (Throw (if String.eqb (stored one_bag "B2") "" then NotFound "B2"
              else DecodeError "B2"), one_bag).
Proof.
  apply (mutators_without_record one_bag "B2" "Hospital" "R1" []). reflexivity.
Defined.

(** A lifecycle method writes, if at all, under its first argument, and
    only when that key is there. *)
Lemma moveBagToLocation_writes (args : list string) (s : store) :
  (moveBagToLocation args s).2 = s
  ∨ ∃ ID rest v, args = ID :: rest ∧ is_Some (s !! ID)
                 ∧ (moveBagToLocation args s).2 = <[ID := v]> s.
Proof.
  destruct args as [|ID [|location rest]]; try by left.
  unfold moveBagToLocation, truthy. step_through. cbn [buffer_truthy negb orb].
  destruct (s !! ID) as [v|] eqn:Hv; [|left; reflexivity].
  cbn [default from_option id].
  destruct (String.eqb v ""); [left; reflexivity|]. cbn [negb].
  destruct (JSON_parse v) as [bag|]; [|left; reflexivity].
  destruct bag as [| | | | |o]; try (left; reflexivity).
  - right. exists ID. do 2 eexists. split_and!; [done..|reflexivity].
  - destruct (obj_get "destination" o) as [[| | |d| |]|];
      try (left; reflexivity);
      try (right; exists ID; do 2 eexists; split_and!; [done..|reflexivity]).
    destruct (String.eqb d location);
      right; exists ID; do 2 eexists; (split_and!; [done..|reflexivity]).
Qed.

Lemma assignBloodBagReceiver_writes (args : list string) (s : store) :
  (assignBloodBagReceiver args s).2 = s
  ∨ ∃ ID rest v, args = ID :: rest ∧ is_Some (s !! ID)
                 ∧ (assignBloodBagReceiver args s).2 = <[ID := v]> s.
Proof.
  destruct args as [|ID [|recipient [|destination rest]]]; try by left.
  unfold assignBloodBagReceiver, truthy. step_through. cbn [buffer_truthy negb orb].
  destruct (s !! ID) as [v|] eqn:Hv; [|left; reflexivity].
  cbn [default from_option id].
  destruct (String.eqb v ""); [left; reflexivity|]. cbn [negb].
  destruct (JSON_parse v) as [bag|]; [|left; reflexivity].
  destruct bag as [| | | | |o]; try (left; reflexivity);
    right; exists ID; do 2 eexists; (split_and!; [done..|reflexivity]).
Qed.

(** X7. [moveBagToLocation] and [assignBloodBagReceiver] neither add nor
    remove a key of the ledger, whatever their arguments and whatever is
    stored; [readBloodBag] leaves the ledger as it is. *)
Theorem mutators_keep_keys (args : list string) (s : store) :
  dom (moveBagToLocation args s).2 = dom s
  ∧ dom (assignBloodBagReceiver args s).2 = dom s
  ∧ (readBloodBag args s).2 = s.
Proof.
  split_and!; [| |apply readBloodBag_store].
  - destruct (moveBagToLocation_writes args s)
      as [->|(ID & rest & v & _ & ? & ->)]; [done|].
    by apply dom_insert_lookup_L.
  - destruct (assignBloodBagReceiver_writes args s)
      as [->|(ID & rest & v & _ & ? & ->)]; [done|].
    by apply dom_insert_lookup_L.
Qed.

Lemma moved_assigned (o : list (string * json)) (r d l : string) :
  obj_get "destination" (assigned o r d) = Some (JString d)
  ∧ obj_get "recipient" (moved (assigned o r d) l) = Some (JString r)
  ∧ obj_get "destination" (moved (assigned o r d) l) = Some (JString d)
  ∧ obj_get "location" (moved (assigned o r d) l) = Some (JString l)
  ∧ obj_get "status" (moved (assigned o r d) l)
    = Some (JString (if String.eqb d l then "RECEIVED" else "INTRANSIT")).
Proof.
  assert (obj_get "destination" (assigned o r d) = Some (JString d)) as Hd.
  { unfold assigned. by rewrite obj_get_set_ne, obj_get_set_eq. }
  split; [done|]. unfold moved. rewrite Hd. unfold assigned.
  split_and!.
  - rewrite !(obj_get_set_ne "recipient") by done. by rewrite obj_get_set_eq.
  - rewrite !(obj_get_set_ne "destination") by done. by rewrite obj_get_set_eq.
  - rewrite (obj_get_set_ne "location") by done. by rewrite obj_get_set_eq.
  - by rewrite obj_get_set_eq.
Qed.

(** X8. Assignment and movement compose: after
    [assignBloodBagReceiver(id, recipient, destination)], moving the bag to
    that destination leaves it [RECEIVED] there, and moving it anywhere else
    leaves it [INTRANSIT]; either way the recipient and the destination
    stay as assigned. *)
Theorem assign_then_move
    (s : store) (id recipient destination location : string)
    (o : list (string * json)) :
  JSON_parse (stored s id) = Some (JObject o) →
  string_valued o = true →
  ∃ (s1 s2 : store) (o2 : list (string * json)),
    assignBloodBagReceiver [id; recipient; destination] s = (Return (), s1)
    ∧ moveBagToLocation [id; location] s1 = (Return (), s2)
    ∧ JSON_parse (stored s2 id) = Some (JObject o2)
    ∧ obj_get "recipient" o2 = Some (JString recipient)
    ∧ obj_get "destination" o2 = Some (JString destination)
    ∧ obj_get "location" o2 = Some (JString location)
    ∧ obj_get "status" o2
      = Some (JString (if String.eqb destination location
                       then "RECEIVED" else "INTRANSIT")).
Proof.
  intros Hp Hs. pose proof (JSON_parse_object_NoDup _ _ Hp) as Hnd.
  destruct (assigned_wf o recipient destination Hnd Hs) as [Hnd1 Hs1].
  destruct (moved_wf _ location Hnd1 Hs1) as [Hnd2 Hs2].
  destruct (moved_assigned o recipient destination location)
    as (Hd & ? & ? & ? & ?).
  set (s1 := <[id := JSON_stringify (JObject (assigned o recipient destination))]> s).
  assert (JSON_parse (stored s1 id)
          = Some (JObject (assigned o recipient destination))) as Hp1.
  { subst s1. rewrite stored_insert_eq. by apply JSON_parse_stringify. }
  exists s1, (<[id := JSON_stringify
                        (JObject (moved (assigned o recipient destination) location))]> s1),
    (moved (assigned o recipient destination) location).
  split; [by apply assignBloodBagReceiver_record|].
  split; [apply moveBagToLocation_record; eauto|].
  split; [rewrite stored_insert_eq; by apply JSON_parse_stringify|done].
Qed.

Lemma assign_then_move_witness :
  ∃ (s1 s2 : store) (o2 : list (string * json)),
    assignBloodBagReceiver ["B1"; "R1"; "Hospital"] one_bag = (Return (), s1)
    ∧ moveBagToLocation ["B1"; "Hospital"] s1 = (Return (), s2)
    ∧ JSON_parse (stored s2 "B1") = Some (JObject o2)
    ∧ obj_get "recipient" o2 = Some (JString "R1")
    ∧ obj_get "destination" o2 = Some (JString "Hospital")
    ∧ obj_get "location" o2 = Some (JString "Hospital")
    ∧ obj_get "status" o2
      = Some (JString (if String.eqb "Hospital" "Hospital"
                       then "RECEIVED" else "INTRANSIT")).
Proof.
  apply (assign_then_move one_bag "B1" "R1" "Hospital" "Hospital"
           (new_bag "B1" "D1" "Bank" "O" "+" "450")); reflexivity.
Defined.

Lemma moved_moved (o : list (string * json)) (a b : string) :
  moved (moved o a) b = moved o b.
Proof.
  assert (obj_get "destination" (moved o a) = obj_get "destination" o) as Hd.
  { unfold moved. by rewrite !obj_get_set_ne. }
  unfold moved at 1. rewrite Hd. unfold moved.
  rewrite (obj_set_comm "location" "status"); [|done|].
  2:{ apply elem_of_keys_obj_set. by left. }
  by rewrite !obj_set_idem.
Qed.

(** X9. Of two movements in a row only the second shows: moving a bag to
    one place and then to another leaves the ledger as the second movement
    alone would, and moving it twice to the same place is moving it once. *)
Theorem move_then_move
    (s : store) (id a b : string) (o : list (string * json)) :
  JSON_parse (stored s id) = Some (JObject o) →
  string_valued o = true →
  ∃ s1 s2 : store,
    moveBagToLocation [id; a] s = (Return (), s1)
    ∧ moveBagToLocation [id; b] s1 = (Return (), s2)
    ∧ moveBagToLocation [id; b] s = (Return (), s2)
    ∧ moveBagToLocation [id; a] s1 = (Return (), s1).
Proof.
  intros Hp Hs. pose proof (JSON_parse_object_NoDup _ _ Hp) as Hnd.
  destruct (moved_wf o a Hnd Hs) as [Hnd1 Hs1].
  set (s1 := <[id := JSON_stringify (JObject (moved o a))]> s).
  assert (JSON_parse (stored s1 id) = Some (JObject (moved o a))) as Hp1.
  { subst s1. rewrite stored_insert_eq. by apply JSON_parse_stringify. }
  exists s1, (<[id := JSON_stringify (JObject (moved o b))]> s).
  split; [apply moveBagToLocation_record; eauto using string_valued_get|].
  split_and!.
  - rewrite (moveBagToLocation_record s1 id b [] _ Hp1)
      by eauto using string_valued_get.
    subst s1. by rewrite moved_moved, insert_insert_eq.
  - apply moveBagToLocation_record; eauto using string_valued_get.
  - rewrite (moveBagToLocation_record s1 id a [] _ Hp1)
      by eauto using string_valued_get.
    subst s1. by rewrite moved_moved, insert_insert_eq.
Qed.

Lemma move_then_move_witness :
  ∃ s1 s2 : store,
    moveBagToLocation ["B1"; "Depot"] one_bag = (Return (), s1)
    ∧ moveBagToLocation ["B1"; "Hospital"] s1 = (Return (), s2)
    ∧ moveBagToLocation ["B1"; "Hospital"] one_bag = (Return (), s2)
    ∧ moveBagToLocation ["B1"; "Depot"] s1 = (Return (), s1).
Proof.
  apply (move_then_move one_bag "B1" "Depot" "Hospital"
           (new_bag "B1" "D1" "Bank" "O" "+" "450")); reflexivity.
Defined.

(** ** What every ledger holds *)

Lemma keys_obj_set_in k v o : k ∈ keys o → keys (obj_set k v o) = keys o.
Proof. intros Hin. rewrite keys_obj_set. by rewrite decide_True. Qed.

Lemma NoDup_bag_fields : NoDup bag_fields.
Proof. apply (bool_decide_unpack _). by vm_compute. Qed.

Lemma bag_at_wf (k : string) (o : list (string * json)) :
  bag_at k o → NoDup (keys o) ∧ string_valued o = true.
Proof. intros (Hk & Hs & _). rewrite Hk. split; [apply NoDup_bag_fields|done]. Qed.

Lemma bag_at_new_bag (id originId location type rh size : string) :
  id ≠ "" → originId ≠ "" → type ≠ "" → rh ≠ "" → size ≠ "" →
  bag_at id (new_bag id originId location type rh size).
Proof.
  intros. split_and!; try done; try by eexists.
  exists "UNASIGNED". split; [done|]. apply elem_of_cons. by left.
Qed.

Lemma in_bag_fields (f : string) (o : list (string * json)) :
  keys o = bag_fields → bool_decide (f ∈ bag_fields) = true → f ∈ keys o.
Proof. intros -> Hf. by apply bool_decide_eq_true in Hf. Qed.

Lemma moved_keys (o : list (string * json)) (location : string) :
  keys o = bag_fields → keys (moved o location) = bag_fields.
Proof.
  intros Hk. unfold moved.
  assert (keys (obj_set "location" (JString location) o) = bag_fields) as Hk1.
  { rewrite keys_obj_set_in; [done|by apply in_bag_fields]. }
  rewrite keys_obj_set_in; [done|by apply in_bag_fields].
Qed.

Lemma assigned_keys (o : list (string * json)) (recipient destination : string) :
  keys o = bag_fields → keys (assigned o recipient destination) = bag_fields.
Proof.
  intros Hk. unfold assigned.
  assert (keys (obj_set "recipient" (JString recipient) o) = bag_fields) as Hk1.
  { rewrite keys_obj_set_in; [done|by apply in_bag_fields]. }
  assert (keys (obj_set "destination" (JString destination)
                  (obj_set "recipient" (JString recipient) o)) = bag_fields) as Hk2.
  { rewrite keys_obj_set_in; [done|by apply in_bag_fields]. }
  rewrite keys_obj_set_in; [done|by apply in_bag_fields].
Qed.

Lemma moved_status (o : list (string * json)) (location : string) :
  ∃ st, obj_get "status" (moved o location) = Some (JString st) ∧ st ∈ statuses.
Proof.
  unfold moved. rewrite obj_get_set_eq. eexists. split; [done|].
  destruct (obj_get "destination" o) as [[| | |d| |]|];
    try destruct (String.eqb d location);
    apply (bool_decide_unpack _); by vm_compute.
Qed.

Lemma moved_other (o : list (string * json)) (location f : string) :
  f ≠ "location" → f ≠ "status" → obj_get f (moved o location) = obj_get f o.
Proof. intros. unfold moved. by rewrite !obj_get_set_ne. Qed.

Lemma assigned_other (o : list (string * json)) (recipient destination f : string) :
  f ≠ "recipient" → f ≠ "destination" → f ≠ "status" →
  obj_get f (assigned o recipient destination) = obj_get f o.
Proof. intros. unfold assigned. by rewrite !obj_get_set_ne. Qed.

Lemma bag_at_moved (k : string) (o : list (string * json)) (location : string) :
  bag_at k o → bag_at k (moved o location).
Proof.
  intros (Hk & Hs & Hd & Hid & ? & H1 & H2 & H3 & H4 & _).
  destruct (moved_wf o location) as [_ ?]; [rewrite Hk; apply NoDup_bag_fields|done|].
  unfold bag_at, filled in *.
  split; [by apply moved_keys|]. split; [done|].
  rewrite (moved_other o location "docType"), (moved_other o location "id"),
    (moved_other o location "originId"), (moved_other o location "type"),
    (moved_other o location "rh"), (moved_other o location "size") by done.
  split_and!; try done. apply moved_status.
Qed.

Lemma bag_at_assigned (k : string) (o : list (string * json))
    (recipient destination : string) :
  bag_at k o → bag_at k (assigned o recipient destination).
Proof.
  intros (Hk & Hs & Hd & Hid & ? & H1 & H2 & H3 & H4 & _).
  destruct (assigned_wf o recipient destination) as [_ ?];
    [rewrite Hk; apply NoDup_bag_fields|done|].
  unfold bag_at, filled in *.
  split; [by apply assigned_keys|]. split; [done|].
  rewrite (assigned_other o _ _ "docType"), (assigned_other o _ _ "id"),
    (assigned_other o _ _ "originId"), (assigned_other o _ _ "type"),
    (assigned_other o _ _ "rh"), (assigned_other o _ _ "size") by done.
  split_and!; try done.
  exists "ASSIGNED". split; [|apply (bool_decide_unpack _); by vm_compute].
  unfold assigned. by rewrite obj_get_set_eq.
Qed.

Lemma ledger_of_bags_insert (s : store) (k v : string) :
  ledger_of_bags s →
  (v = indexValue ∨ ∃ o, v = JSON_stringify (JObject o) ∧ bag_at k o) →
  ledger_of_bags (<[k := v]> s).
Proof.
  intros Hs Hv k' v'. rewrite lookup_insert. case_decide; [|apply Hs].
  subst k'. by intros [= <-].
Qed.

(** What the ledger holds at a key, as the parser sees it. *)
Lemma ledger_of_bags_parse (s : store) (k : string) :
  ledger_of_bags s →
  JSON_parse (stored s k) = None
  ∨ ∃ o, s !! k = Some (JSON_stringify (JObject o)) ∧ bag_at k o
         ∧ JSON_parse (stored s k) = Some (JObject o).
Proof.
  intros Hs. unfold stored. destruct (s !! k) as [v|] eqn:Hk; [|by left].
  destruct (Hs k v Hk) as [->|(o & -> & Ho)]; [by left|].
  right. exists o. split_and!; [done..|].
  destruct (bag_at_wf _ _ Ho). by apply JSON_parse_stringify.
Qed.

Lemma ledger_of_bags_submit (c : call) (s : store) :
  ledger_of_bags s → ledger_of_bags (submit c s).
Proof.
  intros Hs. destruct c as [args|args|args|args|args]; cbn [submit].
  - destruct (createBloodBag_elsewhere s args)
      as [->|(id & oid & loc & ty & rh & sz & -> & ? & ? & ? & ? & ? & ? & ?)];
      [done|].
    rewrite createBloodBag_fresh by done. cbn [snd].
    apply ledger_of_bags_insert; [|by left].
    apply ledger_of_bags_insert; [done|]. right. eauto using bag_at_new_bag.
  - by rewrite readBloodBag_store.
  - intros k v Hk. apply deleteBloodBag_lookup in Hk. exact (Hs k v Hk).
  - destruct args as [|ID [|location rest]]; try done.
    destruct (ledger_of_bags_parse s ID Hs) as [Hp|(o & Hk & Ho & Hp)].
    + by rewrite moveBagToLocation_no_record.
    + rewrite (moveBagToLocation_record _ _ _ _ o) by
        (destruct (bag_at_wf _ _ Ho); eauto using string_valued_get).
      cbn [snd]. apply ledger_of_bags_insert; [done|].
      right. eauto using bag_at_moved.
  - destruct args as [|ID [|recipient [|destination rest]]]; try done.
    destruct (ledger_of_bags_parse s ID Hs) as [Hp|(o & Hk & Ho & Hp)].
    + by rewrite assignBloodBagReceiver_no_record.
    + rewrite (assignBloodBagReceiver_record _ _ _ _ _ o) by done.
      cbn [snd]. apply ledger_of_bags_insert; [done|].
      right. eauto using bag_at_assigned.
Qed.

Lemma ledger_of_bags_run (calls : list call) : ledger_of_bags (run calls).
Proof.
  induction calls as [|c calls IH] using rev_ind.
  - intros k v Hk. change (run []) with (∅ : store) in Hk.
    by rewrite lookup_empty in Hk.
  - rewrite run_snoc. by apply ledger_of_bags_submit.
Qed.

Lemma run_bag_at (calls : list call) (k : string) (o : list (string * json)) :
  JSON_parse (stored (run calls) k) = Some (JObject o) → bag_at k o.
Proof.
  intros Hp.
  destruct (ledger_of_bags_parse _ k (ledger_of_bags_run calls))
    as [Hn|(o' & _ & Ho & Hp')]; congruence.
Qed.

(** X10. After any transactions on an empty ledger, every stored value that
    decodes as a record has exactly the ten properties of a bag, in the
    order [createBloodBag] sets them, and all of them are strings: no method
    adds, drops or reorders a property. *)
Theorem stored_bags_schema
    (calls : list call) (k : string) (o : list (string * json)) :
  JSON_parse (stored (run calls) k) = Some (JObject o) →
  keys o = bag_fields ∧ string_valued o = true.
Proof. intros Hp. by destruct (run_bag_at calls k o Hp) as (? & ? & _). Qed.

Lemma stored_bags_schema_witness :
  keys (moved (new_bag "B1" "D1" "Bank" "O" "+" "450") "Hospital") = bag_fields
  ∧ string_valued (moved (new_bag "B1" "D1" "Bank" "O" "+" "450") "Hospital")
    = true.
Proof.
  apply (stored_bags_schema sample_run "B1"). by vm_compute.
Defined.

(** X11. After any transactions on an empty ledger, a record is stored
    under its own id: the [id] property of every stored record is the key it
    is stored at, and its [originId], [type], [rh] and [size] are non-empty
    strings, as they were checked at creation. *)
Theorem stored_bags_identity
    (calls : list call) (k : string) (o : list (string * json)) :
  JSON_parse (stored (run calls) k) = Some (JObject o) →
  obj_get "id" o = Some (JString k) ∧ k ≠ ""
  ∧ filled "originId" o ∧ filled "type" o ∧ filled "rh" o ∧ filled "size" o.
Proof.
  intros Hp.
  by destruct (run_bag_at calls k o Hp) as (_ & _ & _ & ? & ? & ? & ? & ? & ? & _).
Qed.

Lemma stored_bags_identity_witness :
  obj_get "id" (moved (new_bag "B1" "D1" "Bank" "O" "+" "450") "Hospital")
  = Some (JString "B1") ∧ "B1" ≠ ""
  ∧ filled "originId" (moved (new_bag "B1" "D1" "Bank" "O" "+" "450") "Hospital")
  ∧ filled "type" (moved (new_bag "B1" "D1" "Bank" "O" "+" "450") "Hospital")
  ∧ filled "rh" (moved (new_bag "B1" "D1" "Bank" "O" "+" "450") "Hospital")
  ∧ filled "size" (moved (new_bag "B1" "D1" "Bank" "O" "+" "450") "Hospital").
Proof.
  apply (stored_bags_identity sample_run "B1"). by vm_compute.
Defined.

(** X12. After any transactions on an empty ledger, the [status] of every
    stored record is one of the four texts the chaincode writes:
    [UNASIGNED], [INTRANSIT], [RECEIVED], [ASSIGNED]. *)
Theorem stored_bags_status
    (calls : list call) (k : string) (o : list (string * json)) :
  JSON_parse (stored (run calls) k) = Some (JObject o) →
  ∃ st, obj_get "status" o = Some (JString st) ∧ st ∈ statuses.
Proof.
  intros Hp.
  by destruct (run_bag_at calls k o Hp) as (_ & _ & _ & _ & _ & _ & _ & _ & _ & ?).
Qed.

Lemma stored_bags_status_witness :
  ∃ st,
    obj_get "status" (moved (new_bag "B1" "D1" "Bank" "O" "+" "450") "Hospital")
    = Some (JString st) ∧ st ∈ statuses.
Proof.
  apply (stored_bags_status sample_run "B1"). by vm_compute.
Defined.

Lemma stored_lookup (s : store) (k v : string) :
  stored s k = v → v ≠ "" → s !! k = Some v.
Proof.
  unfold stored. intros Hs Hv. destruct (s !! k) as [w|]; cbn in Hs; congruence.
Qed.

Lemma parse_Some_nonempty (b : string) (v : json) :
  JSON_parse b = Some v → b ≠ "".
Proof. by intros Hp ->. Qed.

Lemma immutable_not_mutable (f : string) :
  f ∈ immutable_fields →
  f ≠ "location" ∧ f ≠ "status" ∧ f ≠ "recipient" ∧ f ≠ "destination".
Proof.
  intros Hf. repeat (apply elem_of_cons in Hf as [->|Hf]; [done|]).
  by apply elem_of_nil in Hf.
Qed.

(** What one transaction can do to a stored record of strings: leave it,
    move it or assign it. *)
Lemma submit_record
    (s : store) (c : call) (k : string) (o o' : list (string * json)) :
  JSON_parse (stored s k) = Some (JObject o) →
  string_valued o = true →
  JSON_parse (stored (submit c s) k) = Some (JObject o') →
  o' = o ∨ (∃ location, o' = moved o location)
  ∨ (∃ recipient destination, o' = assigned o recipient destination).
Proof.
  intros Hp Hs Hp'.
  pose proof (JSON_parse_object_NoDup _ _ Hp) as Hnd.
  assert (stored (submit c s) k = stored s k → o' = o) as Hsame.
  { intros Heq. rewrite Heq in Hp'. congruence. }
  destruct c as [args|args|args|args|args]; cbn [submit] in *.
  - left.
    destruct (createBloodBag_cases args s)
      as [(id & oid & loc & ty & rh & sz & -> & ? & ? & ? & ? & ? & ? & Hfree & Hr)
         |[[msg Hr]|(id & rest & -> & _ & Hr)]];
      rewrite Hr in *; cbn [snd] in *; try by apply Hsame.
    destruct (decide (k = index_key ty id)) as [->|Hne1].
    { by rewrite stored_insert_eq in Hp'. }
    destruct (decide (k = id)) as [->|Hne2].
    { by rewrite Hfree in Hp. }
    apply Hsame. unfold stored. by rewrite !lookup_insert_ne.
  - left. rewrite readBloodBag_store in *. by apply Hsame.
  - left. apply Hsame.
    pose proof (stored_lookup _ k _ eq_refl (parse_Some_nonempty _ _ Hp')) as Hk.
    apply deleteBloodBag_lookup in Hk. unfold stored at 2. by rewrite Hk.
  - destruct (moveBagToLocation_writes args s)
      as [Heq|(ID & rest & v & -> & _ & Heq)];
      [left; rewrite Heq in *; by apply Hsame|].
    destruct (decide (k = ID)) as [->|Hne].
    + destruct rest as [|location rest]; [left; by apply Hsame|].
      rewrite (moveBagToLocation_record _ _ _ _ o) in Hp'
        by eauto using string_valued_get.
      cbn [snd] in Hp'. rewrite stored_insert_eq in Hp'.
      destruct (moved_wf o location Hnd Hs).
      rewrite JSON_parse_stringify in Hp' by done. simplify_eq.
      right. left. by exists location.
    + left. apply Hsame. rewrite Heq. unfold stored. by rewrite lookup_insert_ne.
  - destruct (assignBloodBagReceiver_writes args s)
      as [Heq|(ID & rest & v & -> & _ & Heq)];
      [left; rewrite Heq in *; by apply Hsame|].
    destruct (decide (k = ID)) as [->|Hne].
    + destruct rest as [|recipient [|destination rest]];
        try (left; by apply Hsame).
      rewrite (assignBloodBagReceiver_record _ _ _ _ _ o) in Hp' by done.
      cbn [snd] in Hp'. rewrite stored_insert_eq in Hp'.
      destruct (assigned_wf o recipient destination Hnd Hs).
      rewrite JSON_parse_stringify in Hp' by done. simplify_eq.
      right. right. by exists recipient, destination.
    + left. apply Hsame. rewrite Heq. unfold stored. by rewrite lookup_insert_ne.
Qed.

(** X13. No transaction changes what identifies a bag. On any ledger, if
    a record of strings is stored under a key before a transaction and a
    record is stored there after it, then [docType], [id], [originId],
    [type], [rh] and [size] read the same in both. *)
Theorem immutable_fields_kept
    (s : store) (c : call) (k : string) (o o' : list (string * json)) :
  JSON_parse (stored s k) = Some (JObject o) →
  string_valued o = true →
  JSON_parse (stored (submit c s) k) = Some (JObject o') →
  ∀ f, f ∈ immutable_fields → obj_get f o' = obj_get f o.
Proof.
  intros Hp Hs Hp' f Hf.
  destruct (immutable_not_mutable f Hf) as (? & ? & ? & ?).
  destruct (submit_record s c k o o' Hp Hs Hp')
    as [->|[[location ->]|(recipient & destination & ->)]];
    [done|by apply moved_other|by apply assigned_other].
Qed.

Lemma immutable_fields_kept_witness :
  obj_get "type" (assigned (new_bag "B1" "D1" "Bank" "O" "+" "450") "R1" "Hospital")
  = obj_get "type" (new_bag "B1" "D1" "Bank" "O" "+" "450").
Proof.
  apply (immutable_fields_kept one_bag
           (AssignBloodBagReceiver ["B1"; "R1"; "Hospital"]) "B1"
           (new_bag "B1" "D1" "Bank" "O" "+" "450")
           (assigned (new_bag "B1" "D1" "Bank" "O" "+" "450") "R1" "Hospital"));
    try (by vm_compute).
  apply (bool_decide_unpack _). by vm_compute.
Defined.

(** X22. [UNASIGNED] is the status of a bag that was neither moved nor
    assigned, and no transaction brings it back: on any ledger, if the record
    of strings stored under a key has another status before a transaction,
    the record stored there after it has another status too. *)
Theorem status_never_reset
    (s : store) (c : call) (k : string) (o o' : list (string * json)) :
  JSON_parse (stored s k) = Some (JObject o) →
  string_valued o = true →
  obj_get "status" o ≠ Some (JString "UNASIGNED") →
  JSON_parse (stored (submit c s) k) = Some (JObject o') →
  obj_get "status" o' ≠ Some (JString "UNASIGNED").
Proof.
  intros Hp Hs Hst Hp'.
  destruct (submit_record s c k o o' Hp Hs Hp')
    as [->|[[location ->]|(recipient & destination & ->)]]; [done| |].
  - unfold moved. rewrite obj_get_set_eq.
    destruct (obj_get "destination" o) as [[| | |d| |]|]; try done.
    by destruct (String.eqb d location).
  - unfold assigned. by rewrite obj_get_set_eq.
Qed.

Lemma status_never_reset_witness :
  obj_get "status"
    (assigned (moved (new_bag "B1" "D1" "Bank" "O" "+" "450") "Hospital")
       "R1" "Clinic")
  ≠ Some (JString "UNASIGNED").
Proof.
  apply (status_never_reset (run sample_run)
           (AssignBloodBagReceiver ["B1"; "R1"; "Clinic"]) "B1"
           (moved (new_bag "B1" "D1" "Bank" "O" "+" "450") "Hospital"));
    by vm_compute.
Defined.

(** X14. On a ledger reached by transactions from the empty one, a
    transaction that throws has written nothing, and what it throws is one
    of the chaincode's own errors (an argument error, [AlreadyExists],
    [NotFound] or the decode error): the runtime and the stub never fail
    under it. *)
Theorem failed_transaction_writes_nothing
    (calls : list call) (c : call) (e : error) :
  thrown c (run calls) = Some e →
  submit c (run calls) = run calls ∧ own_error e = true.
Proof.
  pose proof (ledger_of_bags_run calls) as Hs. revert Hs.
  generalize (run calls). intros s Hs.
  destruct c as [args|args|args|args|args]; cbn [thrown submit]; intros Ht.
  - destruct (createBloodBag_cases args s)
      as [(id & oid & loc & ty & rh & sz & -> & ? & ? & ? & ? & ? & ? & Hfree & Hr)
         |[[msg Hr]|(id & rest & -> & _ & Hr)]];
      rewrite Hr in *; cbn [fst snd] in *; simplify_eq; split; reflexivity.
  - rewrite readBloodBag_store. split; [done|].
    destruct args as [|ID [|]]; try (cbn in Ht; simplify_eq; reflexivity).
    rewrite readBloodBag_spec in Ht. cbn [fst] in Ht.
    repeat case_match; simplify_eq; reflexivity.
  - destruct args as [|ID [|]];
      try (cbn in Ht |- *; simplify_eq; split; reflexivity).
    destruct (decide (ID = "")) as [->|HID];
      [cbn in Ht |- *; simplify_eq; split; reflexivity|].
    destruct (ledger_of_bags_parse s ID Hs) as [Hp|(o & Hk & Ho & Hp)].
    + rewrite deleteBloodBag_undecodable in * by done.
      cbn [fst snd] in *. simplify_eq. split; reflexivity.
    + destruct Ho as (_ & _ & _ & Hid & _ & _ & (ty & Hty & ?) & _).
      rewrite (deleteBloodBag_record s ID ty ID o) in Ht by done.
      discriminate.
  - destruct args as [|ID [|location rest]];
      try (cbn in Ht |- *; simplify_eq; split; reflexivity).
    destruct (ledger_of_bags_parse s ID Hs) as [Hp|(o & Hk & Ho & Hp)].
    + rewrite moveBagToLocation_throws in * by done. cbn [fst snd] in *.
      split; [done|]. case_match; simplify_eq; reflexivity.
    + rewrite (moveBagToLocation_record _ _ _ _ o) in Ht
        by (destruct (bag_at_wf _ _ Ho); eauto using string_valued_get).
      discriminate.
  - destruct args as [|ID [|recipient [|destination rest]]];
      try (cbn in Ht |- *; simplify_eq; split; reflexivity).
    destruct (ledger_of_bags_parse s ID Hs) as [Hp|(o & Hk & Ho & Hp)].
    + rewrite assignBloodBagReceiver_throws in * by done. cbn [fst snd] in *.
      split; [done|]. case_match; simplify_eq; reflexivity.
    + rewrite (assignBloodBagReceiver_record _ _ _ _ _ o) in Ht by done.
      discriminate.
Qed.

Lemma failed_transaction_writes_nothing_witness :
  submit (DeleteBloodBag ["B2"]) (run sample_run) = run sample_run
  ∧ own_error (DecodeError "B2") = true.
Proof.
  apply (failed_transaction_writes_nothing sample_run (DeleteBloodBag ["B2"])).
  by vm_compute.
Defined.

(** X15. On a ledger reached by transactions from the empty one, every
    stored record can be deleted: [deleteBloodBag] on its key returns and
    the key is free afterwards. *)
Theorem stored_bag_can_be_deleted
    (calls : list call) (k : string) (o : list (string * json)) :
  JSON_parse (stored (run calls) k) = Some (JObject o) →
  ∃ s' : store,
    deleteBloodBag [k] (run calls) = (Return (), s') ∧ stored s' k = "".
Proof.
  intros Hp.
  destruct (run_bag_at calls k o Hp)
    as (_ & _ & _ & Hid & ? & _ & (ty & Hty & ?) & _).
  eexists. split; [by eapply (deleteBloodBag_record _ k ty k)|].
  unfold stored. destruct (decide (index_key ty k = k)) as [Heq|Hne].
  - rewrite Heq. by rewrite lookup_delete_eq.
  - rewrite lookup_delete_ne by done. by rewrite lookup_delete_eq.
Qed.

Lemma stored_bag_can_be_deleted_witness :
  ∃ s' : store,
    deleteBloodBag ["B1"] (run sample_run) = (Return (), s')
    ∧ stored s' "B1" = "".
Proof.
  apply (stored_bag_can_be_deleted sample_run "B1"
           (moved (new_bag "B1" "D1" "Bank" "O" "+" "450") "Hospital")).
  by vm_compute.
Defined.

(** ** Queries *)

Lemma result_entry_state (kv : string * string) :
  result_entry false (KV kv.1 kv.2) = Return (state_entry kv).
Proof.
  unfold result_entry, state_entry. cbn [value_of].
  by destruct (JSON_parse kv.2).
Qed.

Lemma getAllResults_loop_state (l : list (string * string)) (acc : list json) :
  getAllResults_loop (deliver ((λ kv, KV kv.1 kv.2) <$> l)) false acc
  = (Return (acc ++ (state_entry <$> l)), Iterator [] true).
Proof.
  revert acc. induction l as [|x [|y l] IH]; intros acc.
  - cbn. by rewrite app_nil_r.
  - cbn [fmap list_fmap deliver getAllResults_loop res_value done
         description_truthy].
    by rewrite result_entry_state.
  - change (deliver ((λ kv, KV kv.1 kv.2) <$> x :: y :: l))
      with (IterResult (Some (KV x.1 x.2)) false
              :: deliver ((λ kv, KV kv.1 kv.2) <$> y :: l)).
    cbn [getAllResults_loop res_value done description_truthy].
    rewrite result_entry_state, IH, <-app_assoc. done.
Qed.

(** X16. Over a state-query cursor, [getAllResults] with [isHistory] false
    returns, in the order delivered, one entry for each key the cursor
    delivers, a key with an empty value included, and closes the cursor.
    The entry holds the key and, under [Record], the decoded value; when
    the value does not decode the raw text comes under [Value] instead, and
    there is no [Record]. *)
Theorem getAllResults_state_query (l : list (string * string)) :
  getAllResults (Iterator (deliver ((λ kv, KV kv.1 kv.2) <$> l)) false) false
  = (Return (state_entry <$> l), Iterator [] true).
Proof. unfold getAllResults. cbn [pending]. by rewrite getAllResults_loop_state. Qed.

Lemma getAllResults_loop_closes (answers : list iter_result) (isHistory : bool)
    (acc : list json) :
  match getAllResults_loop answers isHistory acc with
  | (Return results, it') =>
      closed it' = true ∧ length results ≤ length acc + length answers
  | (Throw e, it') => closed it' = false ∧ e = TypeError ∧ isHistory = true
  end.
Proof.
  revert acc. induction answers as [|res rest IH]; intros acc.
  - cbn. split; [done|lia].
  - cbn [getAllResults_loop].
    assert (∀ acc', length acc' ≤ S (length acc) →
              match (if done res then (Return acc', Iterator rest true)
                     else getAllResults_loop rest isHistory acc') with
              | (Return results, it') =>
                  closed it' = true
                  ∧ length results ≤ length acc + length (res :: rest)
              | (Throw e, it') =>
                  closed it' = false ∧ e = TypeError ∧ isHistory = true
              end) as Hstep.
    { intros acc' Hacc. destruct (done res).
      - cbn. split; [done|lia].
      - specialize (IH acc').
        destruct (getAllResults_loop rest isHistory acc') as [[results|e] it'];
          [|done].
        destruct IH as [? ?]. split; [done|]. cbn [length]. lia. }
    destruct (res_value res) as [r|]; [|apply Hstep; lia].
    cbn [description_truthy].
    destruct isHistory, r; cbn [result_entry]; try done;
      apply Hstep; rewrite length_app; cbn; lia.
Qed.

(** X17. When [getAllResults] returns, it has closed the cursor, and it
    returns at most one entry for each answer the cursor had to give. When it
    throws, the cursor is left open; it throws only in history mode, on a
    result that carries no deletion flag. *)
Theorem getAllResults_closes (it : iterator) (isHistory : bool) :
  match getAllResults it isHistory with
  | (Return results, it') =>
      closed it' = true ∧ length results ≤ length (pending it)
  | (Throw e, it') => closed it' = false ∧ e = TypeError ∧ isHistory = true
  end.
Proof. apply (getAllResults_loop_closes (pending it) isHistory []). Qed.

Lemma getAllResults_loop_stops (before : list iter_result) (last : iter_result)
    (after : list iter_result) (isHistory : bool) (acc : list json) :
  done last = true →
  (getAllResults_loop (before ++ last :: after) isHistory acc).1
  = (getAllResults_loop (before ++ [last]) isHistory acc).1
  ∧ (∀ results it',
       getAllResults_loop (before ++ last :: after) isHistory acc
       = (Return results, it') →
       ∃ unread, pending it' = unread ++ after).
Proof.
  intros Hlast. revert acc. induction before as [|res rest IH]; intros acc.
  - cbn [app getAllResults_loop]. rewrite Hlast.
    repeat case_match; cbn; (split; [done|]); intros ? ? ?; simplify_eq;
      by exists [].
  - cbn [app getAllResults_loop].
    repeat case_match; cbn; try apply IH; (split; [done|]);
      intros ? ? ?; simplify_eq; cbn;
      exists (rest ++ [last]); by rewrite <-app_assoc.
Qed.

(** X18. [getAllResults] stops at the first answer that says [done]: what
    the cursor would answer after it is never read and has no part in the
    result. *)
Theorem getAllResults_stops_at_done
    (before : list iter_result) (last : iter_result) (after : list iter_result)
    (isHistory : bool) :
  done last = true →
  (getAllResults (Iterator (before ++ last :: after) false) isHistory).1
  = (getAllResults (Iterator (before ++ [last]) false) isHistory).1
  ∧ (∀ results it',
       getAllResults (Iterator (before ++ last :: after) false) isHistory
       = (Return results, it') →
       ∃ unread, pending it' = unread ++ after).
Proof.
  intros Hlast. unfold getAllResults. cbn [pending].
  by apply getAllResults_loop_stops.
Qed.

Lemma getAllResults_stops_at_done_witness :
  (getAllResults
     (Iterator ([IterResult (Some (KV "B1" "{}")) false]
                ++ IterResult (Some (KV "B2" "{}")) true
                   :: [IterResult (Some (KV "B3" "{}")) false]) false) false).1
  = (getAllResults
       (Iterator ([IterResult (Some (KV "B1" "{}")) false]
                  ++ [IterResult (Some (KV "B2" "{}")) true]) false) false).1
  ∧ (∀ results it',
       getAllResults
         (Iterator ([IterResult (Some (KV "B1" "{}")) false]
                    ++ IterResult (Some (KV "B2" "{}")) true
                       :: [IterResult (Some (KV "B3" "{}")) false]) false) false
       = (Return results, it') →
       ∃ unread, pending it' = unread ++ [IterResult (Some (KV "B3" "{}")) false]).
Proof.
  apply (getAllResults_stops_at_done
           [IterResult (Some (KV "B1" "{}")) false]
           (IterResult (Some (KV "B2" "{}")) true)
           [IterResult (Some (KV "B3" "{}")) false] false).
  reflexivity.
Defined.

(** ** Dispatch *)

(** The ledger after an invocation is the ledger after the transaction it
    names, or the same ledger. *)
Lemma Invoke_ledger (h : string → iterator) (fcn : string)
    (params : list string) (s : store) :
  (Invoke h fcn params s).2
  = match call_named fcn params with
    | Some c => submit c s
    | None => s
    end.
Proof.
  unfold Invoke, operation, call_named.
  destruct (String.eqb fcn "createBloodBag").
  { step_through. cbn [submit]. by destruct (createBloodBag params s) as [[|] ?]. }
  destruct (String.eqb fcn "readBloodBag").
  { step_through. cbn [submit]. by destruct (readBloodBag params s) as [[|] ?]. }
  destruct (String.eqb fcn "deleteBloodBag").
  { step_through. cbn [submit]. by destruct (deleteBloodBag params s) as [[|] ?]. }
  destruct (String.eqb fcn "moveBagToLocation").
  { step_through. cbn [submit].
    by destruct (moveBagToLocation params s) as [[|] ?]. }
  destruct (String.eqb fcn "assignBloodBagReceiver").
  { step_through. cbn [submit].
    by destruct (assignBloodBagReceiver params s) as [[|] ?]. }
  destruct (String.eqb fcn "getHistoryForBloodBag").
  { by destruct (getHistoryForBloodBag h params). }
  by destruct (bool_decide _).
Qed.



(** X20. Only four names can change the ledger through [Invoke]:
    [createBloodBag], [deleteBloodBag], [moveBagToLocation] and
    [assignBloodBagReceiver]. Under any other name that is no member of the
    class or of [Object.prototype] the ledger is left as it is, and when the
    name is no operation either, the invocation is rejected as an unknown
    function. *)
Theorem Invoke_leaves_ledger (h : string → iterator) (fcn : string)
    (params : list string) (s : store) :
  fcn ∉ writing_operations → fcn ∉ other_members →
  (Invoke h fcn params s).2 = s
  ∧ (fcn ≠ "readBloodBag" → fcn ≠ "getHistoryForBloodBag" →
     Invoke h fcn params s
     = (Rejected ("Received unknown function named: " +:+ fcn), s)).
Proof.
  intros Hw Hm.
  assert (fcn ≠ "createBloodBag" ∧ fcn ≠ "deleteBloodBag"
          ∧ fcn ≠ "moveBagToLocation" ∧ fcn ≠ "assignBloodBagReceiver")
    as (H1 & H2 & H3 & H4).
  { split_and!; intros ->; apply Hw; apply (bool_decide_unpack _); by vm_compute. }
  split.
  - rewrite Invoke_ledger. unfold call_named.
    rewrite (proj2 (String.eqb_neq _ _) H1), (proj2 (String.eqb_neq _ _) H2),
      (proj2 (String.eqb_neq _ _) H3), (proj2 (String.eqb_neq _ _) H4).
    destruct (String.eqb fcn "readBloodBag"); [|done].
    cbn [submit]. apply readBloodBag_store.
  - intros H5 H6. unfold Invoke, operation.
    rewrite (proj2 (String.eqb_neq _ _) H1), (proj2 (String.eqb_neq _ _) H2),
      (proj2 (String.eqb_neq _ _) H3), (proj2 (String.eqb_neq _ _) H4),
      (proj2 (String.eqb_neq _ _) H5), (proj2 (String.eqb_neq _ _) H6).
    by rewrite bool_decide_eq_false_2.
Qed.

Lemma Invoke_leaves_ledger_witness :
  (Invoke (λ _, Iterator [] false) "burnBloodBag" ["B1"] one_bag).2 = one_bag
  ∧ ("burnBloodBag" ≠ "readBloodBag" → "burnBloodBag" ≠ "getHistoryForBloodBag" →
     Invoke (λ _, Iterator [] false) "burnBloodBag" ["B1"] one_bag
     = (Rejected ("Received unknown function named: " +:+ "burnBloodBag"), one_bag)).
Proof.
  apply (Invoke_leaves_ledger (λ _, Iterator [] false) "burnBloodBag" ["B1"] one_bag);
    apply (bool_decide_unpack _); by vm_compute.
Defined.

Lemma invoke_all_snoc (h : string → iterator)
    (invocations : list (string * list string)) (i : string * list string) :
  invoke_all h (invocations ++ [i])
  = (Invoke h i.1 i.2 (invoke_all h invocations)).2.
Proof. unfold invoke_all. by rewrite foldl_app. Qed.

Lemma invoke_all_run (h : string → iterator)
    (invocations : list (string * list string)) :
  ∃ calls, invoke_all h invocations = run calls.
Proof.
  induction invocations as [|i invocations [calls IH]] using rev_ind.
  - by exists [].
  - rewrite invoke_all_snoc, Invoke_ledger, IH.
    destruct (call_named i.1 i.2) as [c|]; [|by exists calls].
    exists (calls ++ [c]). by rewrite run_snoc.
Qed.

(** X21. Whatever is invoked, the ledger holds nothing but bags: after any
    invocations on an empty ledger, under names that are operations or
    unknown, every stored value that decodes as a record has the ten
    properties of a bag, is stored under its own id and has one of the four
    statuses. *)
Theorem invoked_ledger_holds_bags (h : string → iterator)
    (invocations : list (string * list string)) (k : string)
    (o : list (string * json)) :
  Forall (λ i, i.1 ∉ other_members) invocations →
  JSON_parse (stored (invoke_all h invocations) k) = Some (JObject o) →
  bag_at k o.
Proof.
  intros _ Hp. destruct (invoke_all_run h invocations) as [calls Hr].
  rewrite Hr in Hp. by eapply run_bag_at.
Qed.

Lemma invoked_ledger_holds_bags_witness :
  bag_at "B1" (moved (new_bag "B1" "D1" "Bank" "O" "+" "450") "Hospital").
Proof.
  apply (invoked_ledger_holds_bags (λ _, Iterator [] false)
           [("createBloodBag", ["B1"; "D1"; "Bank"; "O"; "+"; "450"]);
            ("launchBloodBag", []);
            ("moveBagToLocation", ["B1"; "Hospital"])] "B1").
  - repeat constructor; apply (bool_decide_unpack _); by vm_compute.
  - by vm_compute.
Defined.
